(** * Blockly rendering core: a shallow embedding and its verification

    The development follows the JavaScript sources file by file:

    - [Types], [Measurable], [Row]: the measurable/row data model used by the
      render-info pass (bit-mask type tags as in the input measurables).
    - [Thrasos]: [Blockly.thrasos.RenderInfo] (spacing rules, element
      spacing, alignment padding, finalize).
    - [Geras]: [Blockly.geras.PathObject] (the three SVG paths and RTL flip).
    - [RenderedConnection]: [Blockly.RenderedConnection] (distance, database
      tracking, connect/disconnect re-rendering, contract violations).
    - [ThemeManager]: workspace subscription.
    - [ConnectionTracking], [Bump]: the rest of the position interface of
      [Blockly.RenderedConnection] and [bumpAwayFrom_].
    - [ThemeComponents]: the component registry of [Blockly.ThemeManager]
      and [setTheme].
    - [GerasCalls], [Aria], [ThrasosMeasures]: call sequences on a path
      object, [Blockly.utils.aria], and measures of a laid-out block.

    Numbers.  Layout quantities (paddings, widths, heights) and connection
    coordinates are JavaScript numbers: IEEE-754 binary64 values.  They are
    modelled as primitive [float]s, so that every [+], [-], [*] and [/] of
    the sources rounds here as it does there. *)

From Stdlib Require Import ZArith Floats List Bool String Lia.
From stdpp Require Import base option list gmap strings.

Local Open Scope float_scope.

(** A decimal literal denotes the nearest binary64 value, as it does in
    JavaScript. *)
#[local] Set Warnings "-inexact-float".

(** ** JavaScript truthiness helpers *)

(** A bit-mask test [x & MASK] used as a condition: true iff non-zero. *)
Definition truthy (z : Z) : bool := negb (Z.eqb z 0).

(** [Math.max(a, b)]: NaN when either argument is NaN, and [+0] is larger
    than [-0]. *)
Definition Math_max (a b : float) : float :=
  if PrimFloat.is_nan a || PrimFloat.is_nan b then PrimFloat.nan
  else if a <? b then b
  else if b <? a then a
  else if PrimFloat.is_zero a && PrimFloat.get_sign a then b
  else a.

(** ** Blockly.blockRendering.Types *)

Module Types.

(** Modelled from the spec: the table [Blockly.blockRendering.Types] is not
    in src/.  The spec describes the type tag as a bit mask supporting
    multi-membership, and the input measurables OR the tags [INPUT],
    [INLINE_INPUT], [STATEMENT_INPUT], [EXTERNAL_VALUE_INPUT] into
    [this.type]; every tag is one bit. *)
Definition FIELD : Z := Z.shiftl 1 0.
Definition HAT : Z := Z.shiftl 1 1.
Definition ICON : Z := Z.shiftl 1 2.
Definition SPACER : Z := Z.shiftl 1 3.
Definition BETWEEN_ROW_SPACER : Z := Z.shiftl 1 4.
Definition IN_ROW_SPACER : Z := Z.shiftl 1 5.
Definition EXTERNAL_VALUE_INPUT : Z := Z.shiftl 1 6.
Definition INPUT : Z := Z.shiftl 1 7.
Definition INLINE_INPUT : Z := Z.shiftl 1 8.
Definition STATEMENT_INPUT : Z := Z.shiftl 1 9.
Definition CONNECTION : Z := Z.shiftl 1 10.
Definition PREVIOUS_CONNECTION : Z := Z.shiftl 1 11.
Definition NEXT_CONNECTION : Z := Z.shiftl 1 12.
Definition OUTPUT_CONNECTION : Z := Z.shiftl 1 13.
Definition CORNER : Z := Z.shiftl 1 14.
Definition LEFT_SQUARE_CORNER : Z := Z.shiftl 1 15.
Definition LEFT_ROUND_CORNER : Z := Z.shiftl 1 16.
Definition RIGHT_SQUARE_CORNER : Z := Z.shiftl 1 17.
Definition RIGHT_ROUND_CORNER : Z := Z.shiftl 1 18.
Definition JAGGED_EDGE : Z := Z.shiftl 1 19.

(** [elem.type & TAG], read as a condition. *)
Definition has (tag : Z) (type : Z) : bool := truthy (Z.land type tag).

End Types.

(** ** Blockly.blockRendering.Measurable *)

Module Measurable.

(** One measured element of a row.  [isEditable] is only defined on field
    measurables ([None] is JavaScript's [undefined]); [notchOffset] is set
    on every measurable by the base constructor. *)
Record t : Type := mk {
  type : Z;
  width : float;
  height : float;
  isEditable : option bool;
  notchOffset : float
}.

Definition set_width (w : float) (m : t) : t :=
  mk (type m) w (height m) (isEditable m) (notchOffset m).


End Measurable.

(** The predicates of [Blockly.blockRendering.Types], each a mask test on
    [elem.type]. *)
Module TypesOf.
Import Types.

Definition isField (e : Measurable.t) : bool := has FIELD (Measurable.type e).
Definition isHat (e : Measurable.t) : bool := has HAT (Measurable.type e).
Definition isIcon (e : Measurable.t) : bool := has ICON (Measurable.type e).
Definition isInRowSpacer (e : Measurable.t) : bool :=
  has IN_ROW_SPACER (Measurable.type e).
Definition isInput (e : Measurable.t) : bool := has INPUT (Measurable.type e).
Definition isExternalInput (e : Measurable.t) : bool :=
  has EXTERNAL_VALUE_INPUT (Measurable.type e).
Definition isInlineInput (e : Measurable.t) : bool :=
  has INLINE_INPUT (Measurable.type e).
Definition isStatementInput (e : Measurable.t) : bool :=
  has STATEMENT_INPUT (Measurable.type e).
Definition isPreviousConnection (e : Measurable.t) : bool :=
  has PREVIOUS_CONNECTION (Measurable.type e).
Definition isNextConnection (e : Measurable.t) : bool :=
  has NEXT_CONNECTION (Measurable.type e).
Definition isPreviousOrNextConnection (e : Measurable.t) : bool :=
  has (Z.lor PREVIOUS_CONNECTION NEXT_CONNECTION) (Measurable.type e).
Definition isLeftRoundedCorner (e : Measurable.t) : bool :=
  has LEFT_ROUND_CORNER (Measurable.type e).
Definition isLeftSquareCorner (e : Measurable.t) : bool :=
  has LEFT_SQUARE_CORNER (Measurable.type e).
Definition isJaggedEdge (e : Measurable.t) : bool :=
  has JAGGED_EDGE (Measurable.type e).

(** [elem.isEditable] read as a condition. *)
Definition editable (e : Measurable.t) : bool :=
  match Measurable.isEditable e with Some true => true | _ => false end.

(** [prev.isEditable == next.isEditable] on values that are [undefined],
    [true] or [false]: loose equality never identifies [undefined] with a
    boolean. *)
Definition sameEditability (a b : Measurable.t) : bool :=
  match Measurable.isEditable a, Measurable.isEditable b with
  | None, None => true
  | Some x, Some y => Bool.eqb x y
  | _, _ => false
  end.

End TypesOf.

(** ** The rendering constants provider *)

Module Constants.

(** [this.constants_]: the named numeric constants of the renderer (an
    external collaborator; the functions below only read it). *)
Record t : Type := mk {
  NO_PADDING : float;
  SMALL_PADDING : float;
  MEDIUM_PADDING : float;
  MEDIUM_LARGE_PADDING : float;
  LARGE_PADDING : float;
  STATEMENT_INPUT_PADDING_LEFT : float;
  MIN_BLOCK_WIDTH : float;
  MIN_BLOCK_HEIGHT : float;
  CORNER_RADIUS : float;
  TAB_WIDTH : float;
  NOTCH_OFFSET_LEFT : float;
  SPACER_DEFAULT_HEIGHT : float
}.

End Constants.

(** ** Blockly.blockRendering.Row *)

Module Row.

(** A row of measurables.  A slot of [elements] is [None] where the
    JavaScript array holds [undefined].  [startsWithElemSpacer] and
    [endsWithElemSpacer] are the results of the row's boundary predicates
    (methods of the row classes, which are not in src/).  [ascenderHeight]
    and [capline] are read on the top row, [descenderHeight] and [baseline]
    on the bottom row.  [align] is [None] for JavaScript's [null]. *)
Record t : Type := mk {
  elements : list (option Measurable.t);
  height : float;
  width : float;
  widthWithConnectedBlocks : float;
  yPos : float;
  xPos : float;
  hasExternalInput : bool;
  hasStatement : bool;
  hasDummyInput : bool;
  align : option Z;
  startsWithElemSpacer : bool;
  endsWithElemSpacer : bool;
  ascenderHeight : float;
  capline : float;
  descenderHeight : float;
  baseline : float
}.

Definition set_elements (v : list (option Measurable.t)) (r : t) : t :=
  mk v (height r) (width r) (widthWithConnectedBlocks r) (yPos r) (xPos r)
     (hasExternalInput r) (hasStatement r) (hasDummyInput r) (align r)
     (startsWithElemSpacer r) (endsWithElemSpacer r)
     (ascenderHeight r) (capline r) (descenderHeight r) (baseline r).

Definition set_height (v : float) (r : t) : t :=
  mk (elements r) v (width r) (widthWithConnectedBlocks r) (yPos r) (xPos r)
     (hasExternalInput r) (hasStatement r) (hasDummyInput r) (align r)
     (startsWithElemSpacer r) (endsWithElemSpacer r)
     (ascenderHeight r) (capline r) (descenderHeight r) (baseline r).

Definition set_width (v : float) (r : t) : t :=
  mk (elements r) (height r) v (widthWithConnectedBlocks r) (yPos r) (xPos r)
     (hasExternalInput r) (hasStatement r) (hasDummyInput r) (align r)
     (startsWithElemSpacer r) (endsWithElemSpacer r)
     (ascenderHeight r) (capline r) (descenderHeight r) (baseline r).


Definition set_yPos (v : float) (r : t) : t :=
  mk (elements r) (height r) (width r) (widthWithConnectedBlocks r) v (xPos r)
     (hasExternalInput r) (hasStatement r) (hasDummyInput r) (align r)
     (startsWithElemSpacer r) (endsWithElemSpacer r)
     (ascenderHeight r) (capline r) (descenderHeight r) (baseline r).

Definition set_xPos (v : float) (r : t) : t :=
  mk (elements r) (height r) (width r) (widthWithConnectedBlocks r) (yPos r) v
     (hasExternalInput r) (hasStatement r) (hasDummyInput r) (align r)
     (startsWithElemSpacer r) (endsWithElemSpacer r)
     (ascenderHeight r) (capline r) (descenderHeight r) (baseline r).

Definition set_baseline (v : float) (r : t) : t :=
  mk (elements r) (height r) (width r) (widthWithConnectedBlocks r) (yPos r)
     (xPos r) (hasExternalInput r) (hasStatement r) (hasDummyInput r) (align r)
     (startsWithElemSpacer r) (endsWithElemSpacer r)
     (ascenderHeight r) (capline r) (descenderHeight r) v.




End Row.

(** ** Blockly.thrasos.RenderInfo *)

Module Thrasos.
Import TypesOf Constants.

(** *** Early return

    A statement either returns a number ([Some v]) or falls through to the
    next statement ([None]). *)
Definition Return (v : float) : option float := Some v.
Definition fallthrough : option float := None.
Definition orElse (s : option float) (k : float) : float :=
  match s with Some v => v | None => k end.
Definition withNext (next : option Measurable.t)
  (s : Measurable.t -> option float) : option float :=
  match next with Some n => s n | None => fallthrough end.
(** [next && p(next)]. *)
Definition nextIs (next : option Measurable.t) (p : Measurable.t -> bool)
  : bool :=
  match next with Some n => p n | None => false end.
(** [!next]. *)
Definition isNull (next : option Measurable.t) : bool :=
  match next with Some _ => false | None => true end.

Definition orThen (s1 s2 : option float) : option float :=
  match s1 with Some v => Some v | None => s2 end.

Local Notation "s ;;; k" := (orElse s k) (at level 66, right associativity).
Local Notation "s1 ;> s2" := (orThen s1 s2) (at level 66, right associativity).
Local Notation "'If' c 'Then' s" := (if c then s else fallthrough)
  (at level 60, c at level 59, s at level 59).

(** [getInRowSpacing_(prev, next)]; [None] stands for [null]/[undefined]. *)
Definition getInRowSpacing_ (K : Constants.t)
  (prev next : option Measurable.t) : float :=
  match prev with
  | None =>
      (* Between an editable field and the beginning of the row. *)
      (If nextIs next (fun n => isField n && editable n)
       Then Return (MEDIUM_PADDING K)) ;;;
      (* Inline input at the beginning of the row. *)
      (If nextIs next isInlineInput Then Return (MEDIUM_LARGE_PADDING K)) ;;;
      (If nextIs next isStatementInput
       Then Return (STATEMENT_INPUT_PADDING_LEFT K)) ;;;
      (* Anything else at the beginning of the row. *)
      LARGE_PADDING K
  | Some prev =>
      (* Spacing between a non-input and the end of the row. *)
      (If negb (isInput prev) && isNull next Then Return (
         (If isField prev && editable prev Then Return (MEDIUM_PADDING K)) ;;;
         (If isIcon prev Then Return (LARGE_PADDING K * 2 + 1)) ;;;
         (If isHat prev Then Return (NO_PADDING K)) ;;;
         (If isPreviousOrNextConnection prev Then Return (LARGE_PADDING K)) ;;;
         (If isLeftRoundedCorner prev Then Return (MIN_BLOCK_WIDTH K)) ;;;
         (If isJaggedEdge prev Then Return (NO_PADDING K)) ;;;
         LARGE_PADDING K)) ;;;
      (* Between inputs and the end of the row. *)
      (If isInput prev && isNull next Then
         (if isExternalInput prev then Return (NO_PADDING K)
          else if isInlineInput prev then Return (LARGE_PADDING K)
          else if isStatementInput prev then Return (NO_PADDING K)
          else fallthrough)) ;;;
      (* Spacing between a non-input and an input. *)
      withNext next (fun next =>
        If negb (isInput prev) && isInput next Then Return (
          (if editable prev then
             (if isInlineInput next then Return (SMALL_PADDING K)
              else if isExternalInput next then Return (SMALL_PADDING K)
              else fallthrough)
           else
             (if isInlineInput next then Return (MEDIUM_LARGE_PADDING K)
              else if isExternalInput next then Return (MEDIUM_LARGE_PADDING K)
              else if isStatementInput next then Return (LARGE_PADDING K)
              else fallthrough)) ;;;
          LARGE_PADDING K - 1)) ;;;
      (* Spacing between an icon and an icon or field. *)
      withNext next (fun next =>
        If isIcon prev && negb (isInput next)
        Then Return (LARGE_PADDING K)) ;;;
      (* Spacing between an inline input and a field. *)
      withNext next (fun next =>
        If isInlineInput prev && negb (isInput next) Then
          (if editable next then Return (MEDIUM_PADDING K)
           else Return (LARGE_PADDING K))) ;;;
      withNext next (fun next =>
        If isLeftSquareCorner prev Then (
          (* Spacing between a hat and a corner *)
          (If isHat next Then Return (NO_PADDING K)) ;>
          (* Spacing between a square corner and a previous or next connection *)
          (If isPreviousConnection next || isNextConnection next
           Then Return (Measurable.notchOffset next)))) ;;;
      (* Spacing between a rounded corner and a previous or next connection. *)
      withNext next (fun next =>
        If isLeftRoundedCorner prev
        Then Return (Measurable.notchOffset next - CORNER_RADIUS K)) ;;;
      (* Spacing between two fields of the same editability. *)
      withNext next (fun next =>
        If negb (isInput prev) && negb (isInput next) && sameEditability prev next
        Then Return (LARGE_PADDING K)) ;;;
      (* Spacing between anything and a jagged edge. *)
      (If nextIs next isJaggedEdge Then Return (LARGE_PADDING K)) ;;;
      MEDIUM_PADDING K
  end.

(** *** The pairwise rule table

    The spec's reading of [getInRowSpacing_]: a table of rules keyed on the
    kinds of [prev] and [next] and on editability, searched in the order
    of the source; the first rule that applies gives the spacing, and a
    pair that no rule matches gets [MEDIUM_PADDING]. *)
Record Rule : Type := mkRule {
  applies : option Measurable.t -> option Measurable.t -> bool;
  spacing : Constants.t -> option Measurable.t -> option Measurable.t -> float
}.

(** A rule for the start of a row ([prev] is null). *)
Definition atRowStart (g : option Measurable.t -> bool)
  (v : Constants.t -> float) : Rule :=
  mkRule (fun prev next => isNull prev && g next) (fun K _ _ => v K).

(** A rule for the end of a row ([next] is null). *)
Definition atRowEnd (g : Measurable.t -> bool) (v : Constants.t -> float) : Rule :=
  mkRule (fun prev next => nextIs prev g && isNull next) (fun K _ _ => v K).

(** A rule for two adjacent elements. *)
Definition between (g : Measurable.t -> Measurable.t -> bool)
  (v : Constants.t -> Measurable.t -> float) : Rule :=
  mkRule
    (fun prev next =>
       match prev, next with Some p, Some n => g p n | _, _ => false end)
    (fun K _ next =>
       match next with Some n => v K n | None => MEDIUM_PADDING K end).

Definition rule_table : list Rule := [
  (* the beginning of the row *)
  atRowStart (fun next => nextIs next (fun n => isField n && editable n))
    MEDIUM_PADDING;
  atRowStart (fun next => nextIs next isInlineInput) MEDIUM_LARGE_PADDING;
  atRowStart (fun next => nextIs next isStatementInput)
    STATEMENT_INPUT_PADDING_LEFT;
  atRowStart (fun _ => true) LARGE_PADDING;
  (* a non-input and the end of the row *)
  atRowEnd (fun p => negb (isInput p) && isField p && editable p) MEDIUM_PADDING;
  atRowEnd (fun p => negb (isInput p) && isIcon p)
    (fun K => LARGE_PADDING K * 2 + 1);
  atRowEnd (fun p => negb (isInput p) && isHat p) NO_PADDING;
  atRowEnd (fun p => negb (isInput p) && isPreviousOrNextConnection p)
    LARGE_PADDING;
  atRowEnd (fun p => negb (isInput p) && isLeftRoundedCorner p) MIN_BLOCK_WIDTH;
  atRowEnd (fun p => negb (isInput p) && isJaggedEdge p) NO_PADDING;
  atRowEnd (fun p => negb (isInput p)) LARGE_PADDING;
  (* an input and the end of the row *)
  atRowEnd (fun p => isInput p && isExternalInput p) NO_PADDING;
  atRowEnd (fun p => isInput p && isInlineInput p) LARGE_PADDING;
  atRowEnd (fun p => isInput p && isStatementInput p) NO_PADDING;
  (* a non-input and an input *)
  between (fun p n => negb (isInput p) && isInput n && editable p
                      && isInlineInput n)
    (fun K _ => SMALL_PADDING K);
  between (fun p n => negb (isInput p) && isInput n && editable p
                      && isExternalInput n)
    (fun K _ => SMALL_PADDING K);
  between (fun p n => negb (isInput p) && isInput n && negb (editable p)
                      && isInlineInput n)
    (fun K _ => MEDIUM_LARGE_PADDING K);
  between (fun p n => negb (isInput p) && isInput n && negb (editable p)
                      && isExternalInput n)
    (fun K _ => MEDIUM_LARGE_PADDING K);
  between (fun p n => negb (isInput p) && isInput n && negb (editable p)
                      && isStatementInput n)
    (fun K _ => LARGE_PADDING K);
  between (fun p n => negb (isInput p) && isInput n)
    (fun K _ => LARGE_PADDING K - 1);
  (* an icon and an icon or field *)
  between (fun p n => isIcon p && negb (isInput n)) (fun K _ => LARGE_PADDING K);
  (* an inline input and a field *)
  between (fun p n => isInlineInput p && negb (isInput n) && editable n)
    (fun K _ => MEDIUM_PADDING K);
  between (fun p n => isInlineInput p && negb (isInput n))
    (fun K _ => LARGE_PADDING K);
  (* a square corner and a hat, or a previous or next connection *)
  between (fun p n => isLeftSquareCorner p && isHat n) (fun K _ => NO_PADDING K);
  between (fun p n => isLeftSquareCorner p
                      && (isPreviousConnection n || isNextConnection n))
    (fun _ n => Measurable.notchOffset n);
  (* a rounded corner and a previous or next connection *)
  between (fun p n => isLeftRoundedCorner p)
    (fun K n => Measurable.notchOffset n - CORNER_RADIUS K);
  (* two fields of the same editability *)
  between (fun p n => negb (isInput p) && negb (isInput n) && sameEditability p n)
    (fun K _ => LARGE_PADDING K);
  (* anything and a jagged edge *)
  between (fun p n => isJaggedEdge n) (fun K _ => LARGE_PADDING K)
].

(** First match in the table, [MEDIUM_PADDING] when no rule applies. *)
Definition table_spacing (K : Constants.t)
  (prev next : option Measurable.t) : float :=
  match List.find (fun r => applies r prev next) rule_table with
  | Some r => spacing r K prev next
  | None => MEDIUM_PADDING K
  end.

(** *** Element kinds

    Modelled from the spec: the constructors of the non-input measurables
    are not in src/.  The spec's data model is a tagged variant over field,
    icon, spacer, connection (input, output, previous, next), round corner,
    square corner, hat and jagged edge, an input being at once "input" and
    one of inline, statement, external (as the input constructors in src/
    set the bits).  [typeOf k] is the [type] mask of an element of kind
    [k]. *)
Inductive Kind : Type :=
  | KField | KIcon | KHat | KJaggedEdge | KInRowSpacer
  | KInlineInput | KStatementInput | KExternalValueInput
  | KPreviousConnection | KNextConnection | KOutputConnection
  | KLeftRoundCorner | KLeftSquareCorner
  | KRightRoundCorner | KRightSquareCorner.

Definition typeOf (k : Kind) : Z :=
  match k with
  | KField => Types.FIELD
  | KIcon => Types.ICON
  | KHat => Types.HAT
  | KJaggedEdge => Types.JAGGED_EDGE
  | KInRowSpacer => Z.lor Types.SPACER Types.IN_ROW_SPACER
  | KInlineInput =>
      Z.lor (Z.lor Types.CONNECTION Types.INPUT) Types.INLINE_INPUT
  | KStatementInput =>
      Z.lor (Z.lor Types.CONNECTION Types.INPUT) Types.STATEMENT_INPUT
  | KExternalValueInput =>
      Z.lor (Z.lor Types.CONNECTION Types.INPUT) Types.EXTERNAL_VALUE_INPUT
  | KPreviousConnection => Z.lor Types.CONNECTION Types.PREVIOUS_CONNECTION
  | KNextConnection => Z.lor Types.CONNECTION Types.NEXT_CONNECTION
  | KOutputConnection => Z.lor Types.CONNECTION Types.OUTPUT_CONNECTION
  | KLeftRoundCorner => Z.lor Types.CORNER Types.LEFT_ROUND_CORNER
  | KLeftSquareCorner => Z.lor Types.CORNER Types.LEFT_SQUARE_CORNER
  | KRightRoundCorner => Z.lor Types.CORNER Types.RIGHT_ROUND_CORNER
  | KRightSquareCorner => Z.lor Types.CORNER Types.RIGHT_SQUARE_CORNER
  end.

(** *** addElemSpacing_ *)

(** Modelled from the spec: the constructor
    [Blockly.blockRendering.InRowSpacer] is not in src/; it makes the spacer
    measurable of the given width that spacer insertion puts between two
    elements. *)
Definition InRowSpacer (K : Constants.t) (width : float) : Measurable.t :=
  Measurable.mk (typeOf KInRowSpacer) width (SPACER_DEFAULT_HEIGHT K) None
    (NOTCH_OFFSET_LEFT K).

(** [arr[i]]: [undefined] out of range. *)
Definition at_index (arr : list (option Measurable.t)) (i : nat)
  : option Measurable.t :=
  mjoin (arr !! i).

(** [arr[arr.length - 1]]: [undefined] for an empty array. *)
Definition at_last (arr : list (option Measurable.t)) : option Measurable.t :=
  match arr with
  | [] => None
  | _ => at_index arr (length arr - 1)
  end.

(** The body of the second loop of [addElemSpacing_], for one row. *)
Definition addElemSpacing_row (K : Constants.t) (hasExternalInputs : bool)
  (row : Row.t) : Row.t :=
  let oldElems := Row.elements row in
  let elements0 : list (option Measurable.t) := [] in
  (* No spacing needed before the corner on the top row or the bottom row. *)
  let elements1 :=
    if Row.startsWithElemSpacer row then
      elements0 ++
        [Some (InRowSpacer K (getInRowSpacing_ K None (at_index oldElems 0)))]
    else elements0 in
  let elements2 :=
    elements1 ++
      flat_map
        (fun e =>
           [at_index oldElems e;
            Some (InRowSpacer K
                    (getInRowSpacing_ K (at_index oldElems e)
                       (at_index oldElems (e + 1))))])
        (seq 0 (length oldElems - 1)) in
  let elements3 := elements2 ++ [at_last oldElems] in
  let elements4 :=
    if Row.endsWithElemSpacer row then
      let spacing := getInRowSpacing_ K (at_last oldElems) None in
      let spacing :=
        if hasExternalInputs && Row.hasDummyInput row
        then spacing + TAB_WIDTH K else spacing in
      (* There's a spacer after the last element in the row. *)
      elements3 ++ [Some (InRowSpacer K spacing)]
    else elements3 in
  Row.set_elements elements4 row.

(** [addElemSpacing_()] on [this.rows]. *)
Definition addElemSpacing_ (K : Constants.t) (rows : list Row.t) : list Row.t :=
  let hasExternalInputs := existsb Row.hasExternalInput rows in
  map (addElemSpacing_row K hasExternalInputs) rows.

(** *** addAlignmentPadding_ *)

(** [Blockly.ALIGN_LEFT], [Blockly.ALIGN_CENTRE], [Blockly.ALIGN_RIGHT]. *)
Definition ALIGN_LEFT : Z := (-1)%Z.





(** *** finalize_ *)

(** The render info of one block.  [topRow] and [bottomRow] are the
    positions in [rows] of the two distinguished rows: the objects
    [this.topRow] and [this.bottomRow] are members of [this.rows], and a
    write through either name is a write to that row. *)
Record RenderInfo : Type := mkRenderInfo {
  rows : list Row.t;
  topRow : nat;
  bottomRow : nat;
  startX : float;
  startY : float;
  info_height : float;
  widthWithChildren : float
}.

(** The loop state of [finalize_]. *)
Record Cursor : Type := mkCursor {
  cur_rows : list Row.t;
  yCursor : float;
  widestRowWithConnectedBlocks : float
}.

(** [this.rows[i].f], [0] (never read) out of range. *)
Definition rowField (f : Row.t -> float) (rs : list Row.t) (i : nat) : float :=
  match rs !! i with Some r => f r | None => 0 end.

Section Finalize.

(** [recordElemPositions_(row)] belongs to the base render info, which is
    not in src/; it writes the positions of the row's elements and is taken
    as a parameter, the new [elements] of the row. *)
Variable recordElemPositions_ : Row.t -> list (option Measurable.t).

Definition finalize_body (K : Constants.t) (info : RenderInfo)
  (st : Cursor) (i : nat) : Cursor :=
  match cur_rows st !! i with
  | None => st
  | Some _ =>
      (* row.yPos = yCursor; row.xPos = this.startX; *)
      let rs :=
        alter (fun row => Row.set_xPos (startX info)
                            (Row.set_yPos (yCursor st) row)) i (cur_rows st) in
      (* yCursor += row.height; *)
      let yCursor1 := yCursor st + rowField Row.height rs i in
      let widest :=
        Math_max (widestRowWithConnectedBlocks st)
          (rowField Row.widthWithConnectedBlocks rs i) in
      (* Add padding to the bottom row if block height is less than minimum *)
      let heightWithoutHat :=
        yCursor1 - rowField Row.ascenderHeight rs (topRow info) in
      let '(rs, yCursor2) :=
        if Nat.eqb i (bottomRow info)
           && (heightWithoutHat <? MIN_BLOCK_HEIGHT K) then
          (* But the hat height shouldn't be part of this. *)
          let diff := MIN_BLOCK_HEIGHT K - heightWithoutHat in
          (alter (fun row => Row.set_height (Row.height row + diff) row)
             (bottomRow info) rs,
           yCursor1 + diff)
        else (rs, yCursor1) in
      let rs :=
        alter (fun row => Row.set_elements (recordElemPositions_ row) row)
          i rs in
      mkCursor rs yCursor2 widest
  end.

Definition finalize_ (K : Constants.t) (info : RenderInfo) : RenderInfo :=
  let st :=
    foldl (finalize_body K info) (mkCursor (rows info) 0 0)
      (seq 0 (length (rows info))) in
  let rs :=
    alter (fun row =>
             Row.set_baseline (yCursor st - Row.descenderHeight row) row)
      (bottomRow info) (cur_rows st) in
  mkRenderInfo rs (topRow info) (bottomRow info) (startX info)
    (rowField Row.capline rs (topRow info))
    (yCursor st)
    (widestRowWithConnectedBlocks st + startX info).

End Finalize.

(** The sum of the heights of a list of rows, added from the first row on
    as [finalize_] adds them. *)
Definition sumHeights (rs : list Row.t) : float :=
  foldl (fun acc r => acc + Row.height r) 0 rs.

(** *** The loop of [finalize_], iteration by iteration *)

Section FinalizeLoop.

Variable recordElemPositions_ : Row.t -> list (option Measurable.t).
Variable K : Constants.t.
Variable info : RenderInfo.

(** The state on entry of the loop, and after [k] iterations. *)
Definition loop_start : Cursor := mkCursor (rows info) 0 0.
Definition loop_upto (k : nat) : Cursor :=
  foldl (finalize_body recordElemPositions_ K info) loop_start (seq 0 k).

(** The height without the hat that iteration [i] sees when it enters with
    the cursor at [y]: cursor plus the row's height, minus the top row's
    ascender, on the rows as they are before the pass. *)
Definition heightWithoutHatAt (y : float) (i : nat) : float :=
  y + rowField Row.height (rows info) i
  - rowField Row.ascenderHeight (rows info) (topRow info).

(** Whether iteration [i], entered with the cursor at [y], inflates its
    row: only the bottom row, and only when short of [MIN_BLOCK_HEIGHT]. *)
Definition inflates (y : float) (i : nat) : bool :=
  Nat.eqb i (bottomRow info)
  && (heightWithoutHatAt y i <? MIN_BLOCK_HEIGHT K).

(** The cursor after iteration [i], entered with the cursor at [y]: the
    row's height is added, then the inflation if any. *)
Definition advance (y : float) (i : nat) : float :=
  let y1 := y + rowField Row.height (rows info) i in
  if inflates y i
  then y1 + (MIN_BLOCK_HEIGHT K - heightWithoutHatAt y i)
  else y1.

(** The running sum of the row heights above row [k], rounded as the loop
    rounds it. *)
Definition cursorAt (k : nat) : float := foldl advance 0 (seq 0 k).

(** The height of row [i] after the pass. *)
Definition finalHeight (i : nat) : float :=
  let h := rowField Row.height (rows info) i in
  if inflates (cursorAt i) i
  then h + (MIN_BLOCK_HEIGHT K - heightWithoutHatAt (cursorAt i) i)
  else h.

(** The loop invariant after [k] iterations. *)
Record LoopInv (k : nat) (st : Cursor) : Prop := {
  inv_length : length (cur_rows st) = length (rows info);
  inv_cursor : yCursor st = cursorAt k;
  inv_yPos : forall j, (j < k)%nat ->
    rowField Row.yPos (cur_rows st) j = cursorAt j;
  inv_later : forall j, (k <= j)%nat ->
    rowField Row.height (cur_rows st) j = rowField Row.height (rows info) j;
  inv_done : forall j, (j < k)%nat ->
    rowField Row.height (cur_rows st) j = finalHeight j;
  inv_asc : forall j,
    rowField Row.ascenderHeight (cur_rows st) j
    = rowField Row.ascenderHeight (rows info) j;
  inv_desc : forall j,
    rowField Row.descenderHeight (cur_rows st) j
    = rowField Row.descenderHeight (rows info) j
}.

End FinalizeLoop.

End Thrasos.

(** ** Blockly.geras.PathObject *)

Module Geras.
Local Open Scope string_scope.
Local Open Scope list_scope.

(** An SVG element: its tag and its attributes. *)
Record SVGElement : Type := mkSVGElement {
  tagName : string;
  attributes : gmap string string
}.

(** Modelled from the spec: [Blockly.utils.dom.createSvgElement] is not in
    src/; it creates an element of the given tag carrying the given
    attributes (and appends it to the parent, which fixes the z-order). *)
Definition createSvgElement (name : string) (attrs : list (string * string))
  : SVGElement :=
  mkSVGElement name (list_to_map attrs).

Definition setAttribute (name value : string) (e : SVGElement) : SVGElement :=
  mkSVGElement (tagName e) (<[name := value]> (attributes e)).

Definition getAttribute (name : string) (e : SVGElement) : option string :=
  attributes e !! name.

(** The three paths of a block, in creation order. *)
Record PathObject : Type := mkPathObject {
  svgPathDark : SVGElement;
  svgPath : SVGElement;
  svgPathLight : SVGElement
}.

(** [new Blockly.geras.PathObject(root)]. *)
Definition PathObject_new : PathObject :=
  mkPathObject
    (createSvgElement "path"
       [("class", "blocklyPathDark"); ("transform", "translate(1,1)")])
    (createSvgElement "path" [("class", "blocklyPath")])
    (createSvgElement "path" [("class", "blocklyPathLight")]).

Definition setPaths (mainPath highlightPath : string) (po : PathObject)
  : PathObject :=
  let svgPath' := setAttribute "d" mainPath (svgPath po) in
  let svgPathDark' := setAttribute "d" mainPath (svgPathDark po) in
  let svgPathLight' := setAttribute "d" highlightPath (svgPathLight po) in
  mkPathObject svgPathDark' svgPath' svgPathLight'.

Definition flipRTL (po : PathObject) : PathObject :=
  (* Mirror the block's path. *)
  let svgPath' := setAttribute "transform" "scale(-1 1)" (svgPath po) in
  let svgPathLight' :=
    setAttribute "transform" "scale(-1 1)" (svgPathLight po) in
  let svgPathDark' :=
    setAttribute "transform" "translate(1,1) scale(-1 1)" (svgPathDark po) in
  mkPathObject svgPathDark' svgPath' svgPathLight'.

(** The [transform] attributes of the dark, primary and light paths. *)
Definition transforms (po : PathObject)
  : option string * option string * option string :=
  (getAttribute "transform" (svgPathDark po),
   getAttribute "transform" (svgPath po),
   getAttribute "transform" (svgPathLight po)).

(** [n] calls of [flipRTL]. *)
Fixpoint flips (n : nat) (po : PathObject) : PathObject :=
  match n with
  | O => po
  | S n => flipRTL (flips n po)
  end.

(** The dark path's transform carries the (1,1) translation. *)
Definition darkIsTranslated (po : PathObject) : bool :=
  match getAttribute "transform" (svgPathDark po) with
  | Some s => String.prefix "translate(1,1)" s
  | None => false
  end.

End Geras.

(** ** Completion of an operation that may throw *)

Inductive completion (A : Type) : Type :=
  | Normal (a : A)
  | Throw (message : string).
Arguments Normal {A} a.
Arguments Throw {A} message.

(** ** Blockly.RenderedConnection *)

Module RenderedConnection.
Local Open Scope string_scope.
Local Open Scope list_scope.

(** [Blockly.INPUT_VALUE] ... [Blockly.PREVIOUS_STATEMENT]. *)
Definition INPUT_VALUE : Z := 1%Z.
Definition OUTPUT_VALUE : Z := 2%Z.
Definition NEXT_STATEMENT : Z := 3%Z.
Definition PREVIOUS_STATEMENT : Z := 4%Z.

Record Coordinate : Type := mkCoordinate { x : float; y : float }.

(** What the functions below read of a [Blockly.BlockSvg]: its identity,
    the [rendered] flag, whether it still has a workspace, and the result
    of [getSvgRoot()] ([None] for no SVG root) given as the root's
    position relative to its parent ([Blockly.utils.getRelativeXY]). *)
Record BlockSvg : Type := mkBlockSvg {
  block_id : nat;
  rendered : bool;
  has_workspace : bool;
  getSvgRoot : option Coordinate
}.

Record t : Type := mk {
  id : nat;
  type : Z;
  sourceBlock_ : BlockSvg;
  x_ : float;
  y_ : float;
  offsetInBlock_ : Coordinate;
  inDB_ : bool;
  hidden_ : bool
}.

Definition set_xy (x y : float) (c : t) : t :=
  mk (id c) (type c) (sourceBlock_ c) x y (offsetInBlock_ c) (inDB_ c)
    (hidden_ c).
Definition set_inDB_ (b : bool) (c : t) : t :=
  mk (id c) (type c) (sourceBlock_ c) (x_ c) (y_ c) (offsetInBlock_ c) b
    (hidden_ c).
Definition set_hidden_ (b : bool) (c : t) : t :=
  mk (id c) (type c) (sourceBlock_ c) (x_ c) (y_ c) (offsetInBlock_ c)
    (inDB_ c) b.

(** [getSourceBlock()]. *)
Definition getSourceBlock (c : t) : BlockSvg := sourceBlock_ c.

(** *** distanceFrom, isConnectionAllowed *)

Definition distanceFrom (this otherConnection : t) : float :=
  let xDiff := (x_ this - x_ otherConnection)%float in
  let yDiff := (y_ this - y_ otherConnection)%float in
  PrimFloat.sqrt (xDiff * xDiff + yDiff * yDiff)%float.

(** [a > b] on numbers (false when either is NaN). *)
Definition gt (a b : float) : bool := PrimFloat.ltb b a.

(** [a != b] on numbers (true when either is NaN). *)
Definition neq (a b : float) : bool := negb (PrimFloat.eqb a b).

Section IsConnectionAllowed.

(** [Blockly.Connection.prototype.isConnectionAllowed], the type and shape
    compatibility check of the base class (an external collaborator). *)
Variable super_isConnectionAllowed : t -> t -> bool.

(** [isConnectionAllowed(candidate, maxRadius)]; an omitted [maxRadius]
    compares as NaN. *)
Definition isConnectionAllowed (this candidate : t) (maxRadius : float)
  : bool :=
  if gt (distanceFrom this candidate) maxRadius then false
  else super_isConnectionAllowed this candidate.

End IsConnectionAllowed.

(** *** The connection database, moveTo, setHidden *)

(** An entry of a connection database.  The database array holds the
    connection object itself, at a position found from the coordinates the
    connection had when it was inserted; an entry records which connection
    it is and the coordinates under which it was filed. *)
Record DBEntry : Type := mkDBEntry {
  entry_id : nat;
  entry_x : float;
  entry_y : float
}.

(** A connection together with its database [this.db_]. *)
Record Tracked : Type := mkTracked {
  conn : t;
  db_ : list DBEntry
}.

(** [arr.splice(position, 0, e)]. *)
Definition splice_in {A} (position : nat) (e : A) (arr : list A) : list A :=
  take position arr ++ e :: drop position arr.

(** Removal of the first entry of connection [i]. *)
Fixpoint remove_entry (i : nat) (arr : list DBEntry) : list DBEntry :=
  match arr with
  | [] => []
  | e :: rest =>
      if Nat.eqb (entry_id e) i then rest else e :: remove_entry i rest
  end.

(** The connection has an entry in the database. *)
Definition present (i : nat) (arr : list DBEntry) : bool :=
  existsb (fun e => Nat.eqb (entry_id e) i) arr.

Section Database.

(** The database is ordered by a coordinate; where a new entry goes is
    the database's business and is taken as a parameter. *)
Variable findPositionForConnection_ : list DBEntry -> t -> nat.

(** Modelled from the spec: [Blockly.ConnectionDB] is not in src/.  The
    spec's index supports insert and remove, and the connection keeps a
    membership flag ([inDB_], which the connection's own code only
    initialises and reads): [addConnection] files the connection under its
    current coordinates and sets [inDB_]. *)
Definition addConnection (s : Tracked) : Tracked :=
  let c := conn s in
  let position := findPositionForConnection_ (db_ s) c in
  mkTracked (set_inDB_ true c)
    (splice_in position (mkDBEntry (id c) (x_ c) (y_ c)) (db_ s)).

(** Modelled from the spec: [Blockly.ConnectionDB] is not in src/;
    [removeConnection_] takes the connection's entry out of the index and
    clears [inDB_]. *)
Definition removeConnection_ (s : Tracked) : Tracked :=
  let c := conn s in
  mkTracked (set_inDB_ false c) (remove_entry (id c) (db_ s)).

(** [new Blockly.RenderedConnection(source, type)] in a workspace whose
    database for [type] is [db]: not yet in the database, and not hidden
    ([!this.db_] is false, the database exists). *)
Definition RenderedConnection_new (i : nat) (source : BlockSvg) (type : Z)
  (db : list DBEntry) : Tracked :=
  mkTracked (mk i type source 0%float 0%float (mkCoordinate 0 0) false false)
    db.

Definition moveTo (x y : float) (s : Tracked) : Tracked :=
  (* Remove it from its old location in the database (if already present) *)
  let s := if inDB_ (conn s) then removeConnection_ s else s in
  let s := mkTracked (set_xy x y (conn s)) (db_ s) in
  (* Insert it into its new location in the database. *)
  if negb (hidden_ (conn s)) then addConnection s else s.

Definition setHidden (hidden : bool) (s : Tracked) : Tracked :=
  let s := mkTracked (set_hidden_ hidden (conn s)) (db_ s) in
  if hidden && inDB_ (conn s) then removeConnection_ s
  else if negb hidden && negb (inDB_ (conn s)) then addConnection s
  else s.

(** A call on the connection. *)
Inductive Op : Type :=
  | MoveTo (x y : float)
  | SetHidden (hidden : bool).

Definition step (s : Tracked) (op : Op) : Tracked :=
  match op with
  | MoveTo x y => moveTo x y s
  | SetHidden hidden => setHidden hidden s
  end.

Definition run (ops : list Op) (s : Tracked) : Tracked := foldl step s ops.

End Database.

(** The entries of connection [i] in a database. *)
Definition entries (i : nat) (arr : list DBEntry) : list DBEntry :=
  List.filter (fun e => Nat.eqb (entry_id e) i) arr.

(** The entry of a connection filed under its current coordinates. *)
Definition filed (c : t) : DBEntry := mkDBEntry (id c) (x_ c) (y_ c).

(** The membership flag and the database agree: a connection flagged
    [inDB_] has exactly one entry, filed under its current coordinates, and
    a connection that is not flagged has none. *)
Definition flagAgrees (s : Tracked) : Prop :=
  entries (id (conn s)) (db_ s)
  = if inDB_ (conn s) then [filed (conn s)] else [].

(** No entry of the connection is filed under other coordinates than its
    current ones. *)
Definition noStaleEntry (s : Tracked) : Prop :=
  forall e, In e (db_ s) -> entry_id e = id (conn s) ->
    entry_x e = x_ (conn s) /\ entry_y e = y_ (conn s).

(** *** Calls on collaborators *)

(** The calls the functions below make on blocks and on the base class. *)
Inductive Call : Type :=
  | super_connect_ (parentConnection childConnection : nat)
  | super_disconnectInternal_ (parentBlock childBlock : nat)
  | super_respawnShadow_ (connection : nat)
  | updateDisabled (block : nat)
  | render (block : nat)
  | render_no_bubble (block : nat)
  | initSvg (block : nat)
  | setAttribute_transform (block : nat) (tx ty : float)
  | moveConnections_ (block : nat) (dx dy : float).

(** An operation: the calls it made, and how it completed. *)
Definition Eff (A : Type) : Type := (list Call * completion A)%type.

Definition ret {A} (a : A) : Eff A := ([], Normal a).
Definition call (c : Call) : Eff unit := ([c], Normal tt).
Definition throw {A} (message : string) : Eff A := ([], Throw message).
Definition bind {A B} (m : Eff A) (k : A -> Eff B) : Eff B :=
  match m with
  | (cs, Normal a) => let '(cs', r) := k a in (cs ++ cs', r)
  | (cs, Throw e) => (cs, Throw e)
  end.
Definition when (c : bool) (m : Eff unit) : Eff unit := if c then m else ret tt.

Local Notation "m1 ;;; m2" := (bind m1 (fun _ => m2))
  (at level 66, right associativity).

Definition calls {A} (m : Eff A) : list Call := fst m.
Definition outcome {A} (m : Eff A) : completion A := snd m.

(** *** connect_, disconnectInternal_ *)

Definition connect_ (this childConnection : t) : Eff unit :=
  call (super_connect_ (id this) (id childConnection)) ;;;
  let parentConnection := this in
  let parentBlock := getSourceBlock parentConnection in
  let childBlock := getSourceBlock childConnection in
  when (rendered parentBlock) (call (updateDisabled (block_id parentBlock))) ;;;
  when (rendered childBlock) (call (updateDisabled (block_id childBlock))) ;;;
  when (rendered parentBlock && rendered childBlock)
    (if Z.eqb (type parentConnection) NEXT_STATEMENT
        || Z.eqb (type parentConnection) PREVIOUS_STATEMENT then
       (* Child block may need to square off its corners if it is in a stack.
          Rendering a child will render its parent. *)
       call (render (block_id childBlock))
     else
       (* Child block does not change shape.  Rendering the parent node will
          move its connected children into position. *)
       call (render (block_id parentBlock))).

Definition disconnectInternal_ (this : t) (parentBlock childBlock : BlockSvg)
  : Eff unit :=
  call (super_disconnectInternal_ (block_id parentBlock) (block_id childBlock)) ;;;
  (* Rerender the parent so that it may reflow. *)
  when (rendered parentBlock) (call (render (block_id parentBlock))) ;;;
  when (rendered childBlock)
    (call (updateDisabled (block_id childBlock)) ;;;
     call (render (block_id childBlock))).

(** The blocks a list of calls renders, in order. *)
Definition renderCalls (cs : list Call) : list nat :=
  omap (fun c => match c with render b => Some b | _ => None end) cs.

(** The blocks whose disabled state a list of calls refreshes, in order. *)
Definition updateDisabledCalls (cs : list Call) : list nat :=
  omap (fun c => match c with updateDisabled b => Some b | _ => None end) cs.

(** The disabled state is refreshed on both sides. *)
Definition refreshesBothSides (parentBlock childBlock : BlockSvg)
  (cs : list Call) : Prop :=
  In (block_id parentBlock) (updateDisabledCalls cs)
  /\ In (block_id childBlock) (updateDisabledCalls cs).

(** *** tighten_, respawnShadow_ *)

(** [tighten_()]; [targetConnection] is [this.targetConnection], and
    [this.targetBlock()] is its source block. *)
Definition tighten_ (this : t) (targetConnection : t) : Eff unit :=
  let dx := (x_ targetConnection - x_ this)%float in
  let dy := (y_ targetConnection - y_ this)%float in
  when (neq dx 0 || neq dy 0)
    (let block := getSourceBlock targetConnection in
     match getSvgRoot block with
     | None => throw "block is not rendered."
     | Some xy =>
         (* Workspace coordinates. *)
         call (setAttribute_transform (block_id block)
                 (x xy - dx)%float (y xy - dy)%float) ;;;
         call (moveConnections_ (block_id block) (- dx)%float (- dy)%float)
     end).

(** [respawnShadow_()]; [shadow] tells whether [getShadowDom()] gave a
    shadow, [recordUndo] is [Blockly.Events.recordUndo], and
    [blockShadow] is what [this.targetBlock()] answers once the base class
    has respawned the shadow. *)
Definition respawnShadow_ (this : t) (shadow recordUndo : bool)
  (blockShadow : option BlockSvg) : Eff unit :=
  let parentBlock := getSourceBlock this in
  (* Respawn the shadow block if there is one. *)
  when (has_workspace parentBlock && shadow && recordUndo)
    (call (super_respawnShadow_ (id this)) ;;;
     match blockShadow with
     | None =>
         throw "Couldn't respawn the shadow block that should exist here."
     | Some blockShadow =>
         call (initSvg (block_id blockShadow)) ;;;
         call (render_no_bubble (block_id blockShadow)) ;;;
         when (rendered parentBlock) (call (render (block_id parentBlock)))
     end).

End RenderedConnection.

(** ** Blockly.ThemeManager *)

Module ThemeManager.
Local Open Scope string_scope.
Local Open Scope list_scope.

(** The theme manager: its theme and the subscribed workspaces (workspaces
    and themes are objects, compared by identity). *)
Record t : Type := mk {
  theme_ : nat;
  subscribedWorkspaces_ : list nat
}.

(** [new Blockly.ThemeManager(theme)]. *)
Definition ThemeManager_new (theme : nat) : t := mk theme [].

(** [arr.indexOf(x)]: the first position of [x], [-1] when absent. *)
Fixpoint indexOf (arr : list nat) (x : nat) : Z :=
  match arr with
  | [] => (-1)%Z
  | a :: rest =>
      if Nat.eqb a x then 0%Z
      else let i := indexOf rest x in if (i <? 0)%Z then (-1)%Z else (i + 1)%Z
  end.

(** [arr.splice(index, 1)] for [index >= 0]. *)
Definition splice_out (index : nat) (arr : list nat) : list nat :=
  take index arr ++ drop (S index) arr.

Definition subscribeWorkspace (workspace : nat) (tm : t) : completion t :=
  Normal (mk (theme_ tm) (subscribedWorkspaces_ tm ++ [workspace])).

Definition unsubscribeWorkspace (workspace : nat) (tm : t) : completion t :=
  let index := indexOf (subscribedWorkspaces_ tm) workspace in
  if (index <? 0)%Z then
    Throw "Cannot unsubscribe a workspace that hasn't been subscribed."
  else
    Normal (mk (theme_ tm)
              (splice_out (Z.to_nat index) (subscribedWorkspaces_ tm))).

(** A call on the theme manager. *)
Inductive Op : Type :=
  | Subscribe (workspace : nat)
  | Unsubscribe (workspace : nat).

Definition step (op : Op) (tm : t) : completion t :=
  match op with
  | Subscribe w => subscribeWorkspace w tm
  | Unsubscribe w => unsubscribeWorkspace w tm
  end.

(** A sequence of calls; the first that throws aborts the sequence. *)
Fixpoint run (ops : list Op) (tm : t) : completion t :=
  match ops with
  | [] => Normal tm
  | op :: rest =>
      match step op tm with
      | Normal tm' => run rest tm'
      | Throw e => Throw e
      end
  end.

End ThemeManager.

(** ** Sample inputs *)

Module Examples.
Import Thrasos.

(** The default values of the rendering constants. *)
Definition K0 : Constants.t :=
  Constants.mk 0 3 5 8 10 20 12 24 8 8 15 15.

Definition editableField : Measurable.t :=
  Measurable.mk (typeOf KField) 40 16 (Some true) 15.
Definition labelField : Measurable.t :=
  Measurable.mk (typeOf KField) 30 16 (Some false) 15.
Definition inlineInput : Measurable.t :=
  Measurable.mk (typeOf KInlineInput) 22 26 None 15.
Definition roundCorner : Measurable.t :=
  Measurable.mk (typeOf KLeftRoundCorner) 8 4 None 15.
Definition previousConnection : Measurable.t :=
  Measurable.mk (typeOf KPreviousConnection) 15 4 None 15.
Definition rightCorner : Measurable.t :=
  Measurable.mk (typeOf KRightSquareCorner) 0 4 None 15.

(** A row of the given elements and flags. *)
Definition sampleRow (elems : list (option Measurable.t)) (h w : float)
  (external dummy : bool) (align : option Z) (boundarySpacers : bool) : Row.t :=
  Row.mk elems h w w 0 0 external false dummy align
    boundarySpacers boundarySpacers 0 0 0 0.

(** A block with a dummy input row and an external value input row. *)
Definition dummyRow : Row.t :=
  sampleRow [Some labelField] 16 30 false true (Some ALIGN_LEFT) true.
Definition externalRow : Row.t :=
  sampleRow [Some editableField] 16 40 true false (Some ALIGN_LEFT) true.




(** A block of three rows: top row, one input row, bottom row. *)
Definition sampleInfo : RenderInfo :=
  mkRenderInfo
    [sampleRow [Some roundCorner; Some previousConnection] 5 30 false false None false;
     sampleRow [Some labelField] 10 30 false true (Some ALIGN_LEFT) true;
     sampleRow [Some rightCorner] 5 30 false false None false]
    0 2 0 0 0 0.

(** A block of two rows, each 0.1 high: the top row and the bottom row. *)
Definition fractionalInfo : RenderInfo :=
  mkRenderInfo
    [sampleRow [Some roundCorner] 0.1 30 false false None false;
     sampleRow [Some rightCorner] 0.1 30 false false None false]
    0 1 0 0 0 0.

(** A block of rows 15.3, 10 and 5 high whose top row has a hat ascender
    of 10.3. *)
Definition hatInfo : RenderInfo :=
  mkRenderInfo
    [Row.mk [Some roundCorner] 15.3 30 30 0 0 false false false None
       false false 10.3 0 0 0;
     sampleRow [Some labelField] 10 30 false true (Some ALIGN_LEFT) true;
     sampleRow [Some rightCorner] 5 30 false false None false]
    0 2 0 0 0 0.

(** An element-position pass that leaves the elements as they are. *)
Definition keepElements (row : Row.t) : list (option Measurable.t) :=
  Row.elements row.

Import RenderedConnection.

Definition parentBlock0 : BlockSvg :=
  mkBlockSvg 1 true true (Some (mkCoordinate 0 0)).
Definition childBlock0 : BlockSvg :=
  mkBlockSvg 2 true true (Some (mkCoordinate 0 20)).
Definition unrenderedBlock : BlockSvg := mkBlockSvg 3 false true None.

(** A connection of the given identity, type and block at [(x, y)]. *)
Definition connectionAt (i : nat) (ty : Z) (b : BlockSvg) (x y : float)
  : RenderedConnection.t :=
  RenderedConnection.mk i ty b x y (mkCoordinate 0 0) false false.

(** A database position finder: file at the front. *)
Definition atFront (arr : list DBEntry) (c : RenderedConnection.t) : nat := O.

(** A compatibility check that allows every pair. *)
Definition allowAll (a b : RenderedConnection.t) : bool := true.

End Examples.

(** ** Blockly.RenderedConnection: the rest of the position interface *)

Module ConnectionTracking.
Import RenderedConnection.

Definition set_offsetInBlock_ (o : Coordinate) (c : t) : t :=
  mk (id c) (type c) (sourceBlock_ c) (x_ c) (y_ c) o (inDB_ c) (hidden_ c).

Section Database.

Variable findPositionForConnection_ : list DBEntry -> t -> nat.

(** [moveBy(dx, dy)]. *)
Definition moveBy (dx dy : float) (s : Tracked) : Tracked :=
  moveTo findPositionForConnection_
    (x_ (conn s) + dx)%float (y_ (conn s) + dy)%float s.

(** [moveToOffset(blockTL)]. *)
Definition moveToOffset (blockTL : Coordinate) (s : Tracked) : Tracked :=
  moveTo findPositionForConnection_
    (x blockTL + x (offsetInBlock_ (conn s)))%float
    (y blockTL + y (offsetInBlock_ (conn s)))%float s.

(** [setOffsetInBlock(x, y)]. *)
Definition setOffsetInBlock (x y : float) (s : Tracked) : Tracked :=
  mkTracked (set_offsetInBlock_ (mkCoordinate x y) (conn s)) (db_ s).

(** [getOffsetInBlock()]. *)
Definition getOffsetInBlock (s : Tracked) : Coordinate :=
  offsetInBlock_ (conn s).

(** A call of the position interface. *)
Inductive Call : Type :=
  | CallMoveTo (x y : float)
  | CallMoveBy (dx dy : float)
  | CallMoveToOffset (blockTL : Coordinate)
  | CallSetOffsetInBlock (x y : float)
  | CallSetHidden (hidden : bool).

Definition perform (s : Tracked) (c : Call) : Tracked :=
  match c with
  | CallMoveTo x y => moveTo findPositionForConnection_ x y s
  | CallMoveBy dx dy => moveBy dx dy s
  | CallMoveToOffset blockTL => moveToOffset blockTL s
  | CallSetOffsetInBlock x y => setOffsetInBlock x y s
  | CallSetHidden hidden => setHidden findPositionForConnection_ hidden s
  end.

Definition performAll (cs : list Call) (s : Tracked) : Tracked :=
  foldl perform s cs.

(** The calls that go to the database. *)
Definition touchesDatabase (c : Call) : bool :=
  match c with
  | CallSetOffsetInBlock _ _ => false
  | _ => true
  end.

(** [dispose()].  The base class's [dispose] (not in src/) comes first; it
    may unplug blocks, which moves and hides connections, this one
    included: [superCalls] are the calls it makes on this connection. *)
Definition dispose (superCalls : list Call) (s : Tracked) : Tracked :=
  let s := performAll superCalls s in
  if inDB_ (conn s) then removeConnection_ s else s.

End Database.

(** The entries of all connections but [i], in database order. *)
Definition othersEntries (i : nat) (arr : list DBEntry) : list DBEntry :=
  List.filter (fun e => negb (Nat.eqb (entry_id e) i)) arr.

End ConnectionTracking.

(** ** Blockly.RenderedConnection.prototype.bumpAwayFrom_ *)

Module Bump.
Import RenderedConnection.

(** What [bumpAwayFrom_] reads of a root block. *)
Record RootBlock : Type := mkRootBlock {
  root_id : nat;
  isInFlyout : bool;
  isMovable : bool;
  RTL : bool
}.

(** The calls [bumpAwayFrom_] makes on the root block it moves. *)
Inductive Call : Type :=
  | addSelect (block : nat)
  | moveBy (block : nat) (dx dy : float)
  | removeSelect (block : nat).

(** [bumpAwayFrom_(staticConnection)].  [isDragging] is
    [this.sourceBlock_.workspace.isDragging()], [ownRoot] and [staticRoot]
    are the root blocks of the two connections' source blocks, [selected]
    is [Blockly.selected], and [jitterX], [jitterY], [jitterRTL] are the
    three values of [Math.floor(Math.random() * Blockly.BUMP_RANDOMNESS)]
    in the order they are drawn. *)
Definition bumpAwayFrom_ (SNAP_RADIUS : float) (isDragging : bool)
  (this staticConnection : t) (ownRoot staticRoot : RootBlock)
  (selected : option nat) (jitterX jitterY jitterRTL : float) : list Call :=
  if isDragging then
    (* Don't move blocks around while the user is doing the same. *)
    []
  else
    (* Move the root block. *)
    let rootBlock := ownRoot in
    if isInFlyout rootBlock then
      (* Don't move blocks around in a flyout. *)
      []
    else
      let bump (rootBlock : RootBlock) (staticConnection : t) (reverse : bool) :=
        (* Raise it to the top for extra visibility. *)
        let selected := bool_decide (selected = Some (root_id rootBlock)) in
        let dx :=
          ((x_ staticConnection + SNAP_RADIUS + jitterX) - x_ this)%float in
        let dy :=
          ((y_ staticConnection + SNAP_RADIUS + jitterY) - y_ this)%float in
        let dy :=
          if reverse then
            (* When reversing a bump due to an uneditable block, bump up. *)
            (- dy)%float
          else dy in
        let dx :=
          if RTL rootBlock then
            ((x_ staticConnection - SNAP_RADIUS - jitterRTL) - x_ this)%float
          else dx in
        (if selected then [] else [addSelect (root_id rootBlock)])
        ++ [moveBy (root_id rootBlock) dx dy]
        ++ (if selected then [] else [removeSelect (root_id rootBlock)]) in
      if negb (isMovable rootBlock) then
        (* Can't bump an uneditable block away.
           Check to see if the other block is movable. *)
        let rootBlock := staticRoot in
        if negb (isMovable rootBlock) then []
        else
          (* Swap the connections and move the 'static' connection instead. *)
          bump rootBlock this true
      else bump rootBlock staticConnection false.

(** The blocks a list of calls moves. *)
Definition movedBlocks (cs : list Call) : list nat :=
  omap (fun c => match c with moveBy b _ _ => Some b | _ => None end) cs.

(** [onFailedConnect(otherConnection)]. *)
Definition onFailedConnect := bumpAwayFrom_.

End Bump.

(** ** Blockly.ThemeManager: counting calls, and the component registry *)

Module ThemeComponents.
Local Open Scope string_scope.
Local Open Scope list_scope.

(** How many calls of a sequence subscribe, and unsubscribe, [w]. *)
Definition subscribes (w : nat) (ops : list ThemeManager.Op) : nat :=
  length (List.filter
            (fun op => match op with
                       | ThemeManager.Subscribe v => Nat.eqb v w
                       | _ => false
                       end) ops).
Definition unsubscribes (w : nat) (ops : list ThemeManager.Op) : nat :=
  length (List.filter
            (fun op => match op with
                       | ThemeManager.Unsubscribe v => Nat.eqb v w
                       | _ => false
                       end) ops).

(** How often [w] is in a list of workspaces. *)
Definition occurrences (w : nat) (arr : list nat) : nat :=
  length (List.filter (Nat.eqb w) arr).

(** A subscribed UI component: the element and the inline style property
    to update. *)
Record Component : Type := mkComponent {
  element : nat;
  propertyName : string
}.

(** The theme manager with its component map, and the inline styles of
    the elements ([element.style[propertyName]]). *)
Record t : Type := mk {
  manager : ThemeManager.t;
  componentDB_ : gmap string (list Component);
  styles : gmap (nat * string) string
}.

(** The keys of a list up to the first falsy one (the empty string): the
    loops [for (...; key = keys[i]; i++)] stop there. *)
Fixpoint untilFalsy (keys : list string) : list string :=
  match keys with
  | [] => []
  | k :: rest => if String.eqb k "" then [] else k :: untilFalsy rest
  end.

Section Manager.

(** [theme.getComponentStyle(componentName)], a method of the theme (an
    external collaborator); [None] for [null] or [undefined]. *)
Variable getComponentStyle : nat -> string -> option string.

(** [Object.keys(componentDB_)]: the order of the keys is the JavaScript
    engine's and is taken as a parameter. *)
Variable keys : gmap string (list Component) -> list string.



(** The body of the outer loop of [unsubscribe], for one component name:
    the elements are scanned from the end and every reference to the
    element is spliced out. *)
Definition unsubscribe_name (element : nat)
  (db : gmap string (list Component)) (componentName : string)
  : gmap string (list Component) :=
  match db !! componentName with
  | None => db
  | Some elements =>
      let elements :=
        List.filter (fun c => negb (Nat.eqb (ThemeComponents.element c) element))
          elements in
      (* Clean up the component map entry if the list is empty. *)
      match elements with
      | [] => delete componentName db
      | _ => <[componentName := elements]> db
      end
  end.

(** [unsubscribe(element)]; [None] is a null element. *)
Definition unsubscribe (element : option nat) (tm : t) : t :=
  match element with
  | None => tm
  | Some element =>
      (* Go through all component, and remove any references to this element. *)
      let componentNames := keys (componentDB_ tm) in
      mk (manager tm)
        (foldl (unsubscribe_name element) (componentDB_ tm)
           (untilFalsy componentNames))
        (styles tm)
  end.



End Manager.

(** The key order lists every key of the map once. *)
Definition keysOf (keys : gmap string (list Component) -> list string) : Prop :=
  forall m, NoDup (keys m) /\ forall k, In k (keys m) <-> is_Some (m !! k).

(** No component is registered under the empty name. *)
Definition noEmptyName (db : gmap string (list Component)) : Prop :=
  db !! "" = None.



(** What [unsubscribe] leaves of a list of components. *)
Definition withoutElement (e : nat) (l : list Component) : option (list Component) :=
  match List.filter (fun c => negb (Nat.eqb (element c) e)) l with
  | [] => None
  | l' => Some l'
  end.


(** A key order for the examples: the keys in the order of the map's
    own enumeration. *)
Definition domKeys (m : gmap string (list Component)) : list string :=
  (map_to_list m).*1.


(** A manager with theme 0, two workspaces, and element 7 registered as
    toolbox and as flyout. *)
Definition sampleManager : t :=
  mk (ThemeManager.mk 0 [10; 11]%nat)
     (<["toolbox" := [mkComponent 7 "background-color"]]>
        (<["flyout" := [mkComponent 7 "opacity"; mkComponent 8 "opacity"]]> ∅))
     ∅.

(** A manager where element 7 is registered under three names, one of
    them the empty name, and the names in their insertion order. *)
Definition emptyNameManager : t :=
  mk (ThemeManager.mk 0 [])
     (<["toolbox" := [mkComponent 7 "background-color"]]>
        (<["" := [mkComponent 7 "color"]]>
           (<["flyout" := [mkComponent 7 "opacity"]]> ∅)))
     ∅.
Definition insertionKeys (_ : gmap string (list Component)) : list string :=
  ["toolbox"; ""; "flyout"].

End ThemeComponents.

(** ** Blockly.geras.PathObject: sequences of calls *)

Module GerasCalls.
Import Geras.
Local Open Scope string_scope.
Local Open Scope list_scope.

(** A call on a path object. *)
Inductive Op : Type :=
  | SetPaths (mainPath highlightPath : string)
  | FlipRTL.

Definition step (po : PathObject) (op : Op) : PathObject :=
  match op with
  | SetPaths mainPath highlightPath => setPaths mainPath highlightPath po
  | FlipRTL => flipRTL po
  end.

Definition run (ops : list Op) (po : PathObject) : PathObject :=
  foldl step po ops.

(** The arguments of the last [setPaths] of a sequence of calls, and
    whether it has a [flipRTL]. *)
Fixpoint lastPaths (ops : list Op) : option (string * string) :=
  match ops with
  | [] => None
  | op :: rest =>
      match lastPaths rest with
      | Some p => Some p
      | None => match op with
                | SetPaths m h => Some (m, h)
                | FlipRTL => None
                end
      end
  end.

Definition flipped (ops : list Op) : bool :=
  existsb (fun op => match op with FlipRTL => true | _ => false end) ops.

End GerasCalls.

(** ** Blockly.utils.aria (src/core/theme_manager.js) *)

Module Aria.
Local Open Scope string_scope.
Local Open Scope list_scope.

(** ARIA states and properties are prefixed with this. *)
Definition ARIA_PREFIX_ : string := "aria-".

(** ARIA role attribute. *)
Definition ROLE_ATTRIBUTE_ : string := "role".

(** A DOM element: its attributes.  [getAttribute] gives [None] (null)
    for an attribute that is not set. *)
Definition Element : Type := gmap string string.

Definition setAttribute (name value : string) (element : Element) : Element :=
  <[name := value]> element.
Definition getAttribute (name : string) (element : Element) : option string :=
  element !! name.
Definition removeAttribute (name : string) (element : Element) : Element :=
  delete name element.

(** The values [setState] takes: a string, a boolean, a number or an
    array of strings. *)
Inductive Value : Type :=
  | VString (s : string)
  | VBoolean (b : bool)
  | VNumber (n : float)
  | VArray (l : list string).

(** [roleName] is a string or null; the empty string and null are
    falsy. *)
Definition falsy (s : option string) : bool :=
  match s with
  | None => true
  | Some s => String.eqb s ""
  end.

(** [Array.prototype.join] of an array of strings. *)
Definition join (sep : string) (l : list string) : string :=
  String.concat sep l.

(** [removeRole(element)]. *)
Definition removeRole (element : Element) : Element :=
  removeAttribute ROLE_ATTRIBUTE_ element.

(** [setRole(element, roleName)]. *)
Definition setRole (element : Element) (roleName : option string) : Element :=
  match roleName with
  | Some name =>
      if falsy roleName then
        (* Setting the ARIA role to empty string is not allowed
           by the ARIA standard. *)
        removeRole element
      else setAttribute ROLE_ATTRIBUTE_ name element
  | None => removeRole element
  end.

(** [getRole(element)]: [role || null]. *)
Definition getRole (element : Element) : option string :=
  let role := getAttribute ROLE_ATTRIBUTE_ element in
  if falsy role then None else role.

(** [getAriaAttributeName_(ariaName)]. *)
Definition getAriaAttributeName_ (ariaName : string) : string :=
  ARIA_PREFIX_ ++ ariaName.

Section SetState.

(** The string [setAttribute] makes of a number (the engine's number to
    string conversion). *)
Variable numberToString : float -> string.

(** The string [setAttribute] stores for a value. *)
Definition toString (value : Value) : string :=
  match value with
  | VString s => s
  | VBoolean true => "true"
  | VBoolean false => "false"
  | VNumber n => numberToString n
  | VArray l => join "," l
  end.

(** [setState(element, stateName, value)]. *)
Definition setState (element : Element) (stateName : string) (value : Value)
  : Element :=
  let value :=
    match value with
    | VArray l => VString (join " " l)
    | _ => value
    end in
  let attrStateName := getAriaAttributeName_ stateName in
  setAttribute attrStateName (toString value) element.

End SetState.

End Aria.
(** ** Blockly.thrasos.RenderInfo: measures of a block *)

Module ThrasosMeasures.
Import Thrasos.

(** How many spacers [addElemSpacing_] puts before the first and after
    the last element of a row: one or none. *)
Definition leading (row : Row.t) : nat :=
  if Row.startsWithElemSpacer row then 1%nat else 0%nat.
Definition trailing (row : Row.t) : nat :=
  if Row.endsWithElemSpacer row then 1%nat else 0%nat.

(** The spacer [addElemSpacing_] makes for elements [j] and [j + 1] of
    [oldElems]. *)
Definition spacerBetween (K : Constants.t)
  (oldElems : list (option Measurable.t)) (j : nat) : option Measurable.t :=
  Some (InRowSpacer K
          (getInRowSpacing_ K (at_index oldElems j)
             (at_index oldElems (j + 1)))).

(** The widest [widthWithConnectedBlocks] of a list of rows, as the loop
    of [finalize_] accumulates it with [Math.max] from [0]. *)
Definition widest (rs : list Row.t) : float :=
  foldl Math_max 0 (map Row.widthWithConnectedBlocks rs).

Section FinalizeWidths.

Variable info : RenderInfo.

(** The invariant of the loop of [finalize_] on the widths and the X
    positions, after [k] iterations. *)
Record WidthInv (k : nat) (st : Cursor) : Prop := {
  w_length : length (cur_rows st) = length (rows info);
  w_xPos : forall j, (j < k)%nat ->
    rowField Row.xPos (cur_rows st) j = startX info;
  w_frame : forall (f : Row.t -> float) j,
    (forall v r, f (Row.set_yPos v r) = f r) ->
    (forall v r, f (Row.set_xPos v r) = f r) ->
    (forall v r, f (Row.set_height v r) = f r) ->
    (forall v r, f (Row.set_elements v r) = f r) ->
    rowField f (cur_rows st) j = rowField f (rows info) j;
  w_widest :
    widestRowWithConnectedBlocks st = widest (take k (rows info))
}.

End FinalizeWidths.

End ThrasosMeasures.

(** * Verified properties *)

(** ** Blockly.thrasos.RenderInfo *)

Module ThrasosProofs.
Import TypesOf Constants Thrasos.

(** *** getInRowSpacing_ against the rule table *)

Ltac spacing_simpl :=
  cbn [List.find applies spacing atRowStart atRowEnd between nextIs isNull
       withNext orElse orThen Return fallthrough andb negb orb] in *.

(** Case split on the first type test left in the goal. *)
Ltac split_on_type_test :=
  match goal with
  | |- context [isInput ?x] => destruct (isInput x) eqn:?
  | |- context [editable ?x] => destruct (editable x) eqn:?
  | |- context [isField ?x] => destruct (isField x) eqn:?
  | |- context [isIcon ?x] => destruct (isIcon x) eqn:?
  | |- context [isHat ?x] => destruct (isHat x) eqn:?
  | |- context [isInlineInput ?x] => destruct (isInlineInput x) eqn:?
  | |- context [isExternalInput ?x] => destruct (isExternalInput x) eqn:?
  | |- context [isStatementInput ?x] => destruct (isStatementInput x) eqn:?
  | |- context [isPreviousOrNextConnection ?x] =>
      destruct (isPreviousOrNextConnection x) eqn:?
  | |- context [isPreviousConnection ?x] =>
      destruct (isPreviousConnection x) eqn:?
  | |- context [isNextConnection ?x] => destruct (isNextConnection x) eqn:?
  | |- context [isLeftRoundedCorner ?x] =>
      destruct (isLeftRoundedCorner x) eqn:?
  | |- context [isLeftSquareCorner ?x] =>
      destruct (isLeftSquareCorner x) eqn:?
  | |- context [isJaggedEdge ?x] => destruct (isJaggedEdge x) eqn:?
  | |- context [sameEditability ?x ?y] =>
      destruct (sameEditability x y) eqn:?
  end; spacing_simpl; try reflexivity.

Lemma getInRowSpacing_refines_table K prev next :
  getInRowSpacing_ K prev next = table_spacing K prev next.
Proof.
  unfold getInRowSpacing_, table_spacing, rule_table.
  destruct prev as [p|], next as [n|]; spacing_simpl; try reflexivity;
    repeat split_on_type_test.
Qed.

Lemma find_no_rule (prev next : option Measurable.t) (table : list Rule) :
  (forall r, In r table -> applies r prev next = false) ->
  List.find (fun r => applies r prev next) table = None.
Proof.
  induction table as [|r table IH]; intros H; [reflexivity|].
  cbn [List.find]. rewrite (H r (or_introl eq_refl)).
  apply IH. intros r' Hr'. apply H. now right.
Qed.

Lemma editable_Some_true e :
  Measurable.isEditable e = Some true -> editable e = true.
Proof. unfold editable. now intros ->. Qed.

Lemma row_start_editable_field K next :
  isField next = true -> Measurable.isEditable next = Some true ->
  getInRowSpacing_ K None (Some next) = MEDIUM_PADDING K.
Proof.
  intros Hf He. unfold getInRowSpacing_. spacing_simpl.
  rewrite Hf, (editable_Some_true _ He). reflexivity.
Qed.

Lemma row_start_inline_input K next :
  Measurable.type next = typeOf KInlineInput ->
  getInRowSpacing_ K None (Some next) = MEDIUM_LARGE_PADDING K.
Proof.
  intros Ht. unfold getInRowSpacing_. spacing_simpl.
  unfold isField, isInlineInput. rewrite Ht. reflexivity.
Qed.

Lemma round_corner_then_connection K prev next :
  Measurable.type prev = typeOf KLeftRoundCorner ->
  Measurable.type next = typeOf KPreviousConnection \/
  Measurable.type next = typeOf KNextConnection ->
  getInRowSpacing_ K (Some prev) (Some next)
  = Measurable.notchOffset next - CORNER_RADIUS K.
Proof.
  intros Hp Hn. unfold getInRowSpacing_. spacing_simpl.
  unfold isInput, isIcon, isInlineInput, isLeftSquareCorner,
    isLeftRoundedCorner.
  rewrite Hp. destruct Hn as [-> | ->]; reflexivity.
Qed.

(** C1.  [getInRowSpacing_] returns, for every pair [(prev, next)], the
    spacing of the first rule of the pairwise rule table that applies.  In
    particular an editable field at the start of a row ([prev] null) gets
    [MEDIUM_PADDING], an inline input at the start of a row gets
    [MEDIUM_LARGE_PADDING], a left rounded corner followed by a previous or
    next connection gets [next.notchOffset - CORNER_RADIUS], and a pair
    that no rule of the table matches gets [MEDIUM_PADDING]. *)
Theorem getInRowSpacing_rule_table :
  (forall K prev next,
      getInRowSpacing_ K prev next = table_spacing K prev next)
  /\ (forall K next,
      isField next = true -> Measurable.isEditable next = Some true ->
      getInRowSpacing_ K None (Some next) = MEDIUM_PADDING K)
  /\ (forall K next,
      Measurable.type next = typeOf KInlineInput ->
      getInRowSpacing_ K None (Some next) = MEDIUM_LARGE_PADDING K)
  /\ (forall K prev next,
      Measurable.type prev = typeOf KLeftRoundCorner ->
      Measurable.type next = typeOf KPreviousConnection \/
      Measurable.type next = typeOf KNextConnection ->
      getInRowSpacing_ K (Some prev) (Some next)
      = Measurable.notchOffset next - CORNER_RADIUS K)
  /\ (forall K prev next,
      (forall r, In r rule_table -> applies r prev next = false) ->
      getInRowSpacing_ K prev next = MEDIUM_PADDING K).
Proof.
  split; [exact getInRowSpacing_refines_table|].
  split; [exact row_start_editable_field|].
  split; [exact row_start_inline_input|].
  split; [exact round_corner_then_connection|].
  intros K prev next H. rewrite getInRowSpacing_refines_table.
  unfold table_spacing. now rewrite (find_no_rule prev next rule_table H).
Qed.

(** The rules at work on sample elements: an editable field and an inline
    input at the start of a row, a rounded corner before a previous
    connection, and the fallback for an input followed by an input. *)
Lemma getInRowSpacing_rule_table_witness :
  getInRowSpacing_ Examples.K0 None (Some Examples.editableField) = 5
  /\ getInRowSpacing_ Examples.K0 None (Some Examples.inlineInput) = 8
  /\ getInRowSpacing_ Examples.K0 (Some Examples.roundCorner)
       (Some Examples.previousConnection) = 15 - 8
  /\ getInRowSpacing_ Examples.K0 (Some Examples.inlineInput)
       (Some Examples.inlineInput) = 5.
Proof.
  destruct getInRowSpacing_rule_table as (_ & Hfield & Hinline & Hround & Hnone).
  split; [apply (Hfield Examples.K0 Examples.editableField); reflexivity|].
  split; [apply (Hinline Examples.K0 Examples.inlineInput); reflexivity|].
  split; [apply (Hround Examples.K0 Examples.roundCorner
                   Examples.previousConnection);
          [reflexivity|left; reflexivity]|].
  apply (Hnone Examples.K0 (Some Examples.inlineInput)
           (Some Examples.inlineInput)).
  intros r Hr. cbn [rule_table In] in Hr.
  repeat (destruct Hr as [<-|Hr]; [reflexivity|]). destruct Hr.
Defined.

(** *** addElemSpacing_ *)

Lemma addElemSpacing_row_last K ext row :
  Row.endsWithElemSpacer row = true ->
  last (Row.elements (addElemSpacing_row K ext row))
  = Some (Some (InRowSpacer K
       (if ext && Row.hasDummyInput row
        then getInRowSpacing_ K (at_last (Row.elements row)) None + TAB_WIDTH K
        else getInRowSpacing_ K (at_last (Row.elements row)) None))).
Proof.
  intros He. unfold addElemSpacing_row. rewrite He.
  cbn [Row.set_elements Row.elements]. apply last_snoc.
Qed.

Lemma addElemSpacing_lookup K rows i row :
  rows !! i = Some row ->
  addElemSpacing_ K rows !! i
  = Some (addElemSpacing_row K (existsb Row.hasExternalInput rows) row).
Proof.
  intros H. unfold addElemSpacing_. rewrite list_lookup_fmap, H. reflexivity.
Qed.

(** C10.  After [addElemSpacing_], a row that ends with an element spacer
    ends with an in-row spacer; if some row of the block has an external
    value input and the row has a dummy input, the spacer's width is the
    pairwise value [getInRowSpacing_(last, null)] plus [TAB_WIDTH]; if no
    row of the block has an external input (or the row has no dummy
    input) it is exactly the pairwise value. *)
Theorem addElemSpacing_trailing_spacer K rows i row :
  rows !! i = Some row ->
  Row.endsWithElemSpacer row = true ->
  let pairwise := getInRowSpacing_ K (at_last (Row.elements row)) None in
  exists row' spacer,
    addElemSpacing_ K rows !! i = Some row'
    /\ last (Row.elements row') = Some (Some spacer)
    /\ isInRowSpacer spacer = true
    /\ ((exists r, In r rows /\ Row.hasExternalInput r = true) ->
        Row.hasDummyInput row = true ->
        Measurable.width spacer = pairwise + TAB_WIDTH K)
    /\ ((forall r, In r rows -> Row.hasExternalInput r = false) ->
        Measurable.width spacer = pairwise)
    /\ (Row.hasDummyInput row = false -> Measurable.width spacer = pairwise).
Proof.
  intros Hi He pairwise.
  eexists _, _. split; [apply (addElemSpacing_lookup K rows i row Hi)|].
  split; [apply addElemSpacing_row_last, He|].
  split; [reflexivity|].
  split; [|split].
  - intros Hex Hd. apply existsb_exists in Hex. rewrite Hex, Hd. reflexivity.
  - intros Hall.
    assert (existsb Row.hasExternalInput rows = false) as ->.
    { apply not_true_is_false. intros Hex. apply existsb_exists in Hex.
      destruct Hex as (r & Hr & Ht). rewrite (Hall r Hr) in Ht. discriminate. }
    reflexivity.
  - intros ->. rewrite andb_false_r. reflexivity.
Qed.

(** A block with a dummy row and an external row: the dummy row's trailing
    spacer is [LARGE_PADDING + TAB_WIDTH] wide. *)
Lemma addElemSpacing_trailing_spacer_witness :
  [Examples.dummyRow; Examples.externalRow] !! 0%nat = Some Examples.dummyRow
  /\ Row.endsWithElemSpacer Examples.dummyRow = true
  /\ exists row' spacer,
       addElemSpacing_ Examples.K0 [Examples.dummyRow; Examples.externalRow]
         !! 0%nat = Some row'
       /\ last (Row.elements row') = Some (Some spacer)
       /\ Measurable.width spacer = 10 + 8.
Proof.
  split; [reflexivity|]. split; [reflexivity|].
  destruct (addElemSpacing_trailing_spacer Examples.K0
              [Examples.dummyRow; Examples.externalRow] 0 Examples.dummyRow
              eq_refl eq_refl)
    as (row' & spacer & Hrow & Hlast & _ & Hext & _).
  exists row', spacer. split; [exact Hrow|]. split; [exact Hlast|].
  apply Hext; [|reflexivity].
  exists Examples.externalRow. split; [right; left; reflexivity|reflexivity].
Defined.

(** *** addAlignmentPadding_ *)








(** *** finalize_ *)

Lemma rowField_lookup f rs i r : rs !! i = Some r -> rowField f rs i = f r.
Proof. intros H. unfold rowField. now rewrite H. Qed.

Lemma rowField_alter_ne f g rs i j :
  i <> j -> rowField f (alter g i rs) j = rowField f rs j.
Proof. intros H. unfold rowField. now rewrite list_lookup_alter_ne. Qed.

Lemma rowField_alter_frame f g rs i j :
  (forall r, f (g r) = f r) -> rowField f (alter g i rs) j = rowField f rs j.
Proof.
  intros H. unfold rowField. destruct (decide (i = j)) as [->|Hne].
  - rewrite list_lookup_alter_eq. destruct (rs !! j); cbn; auto.
  - now rewrite list_lookup_alter_ne.
Qed.

Lemma rowField_alter_eq f g rs i r :
  rs !! i = Some r -> rowField f (alter g i rs) i = f (g r).
Proof. intros H. unfold rowField. now rewrite list_lookup_alter_eq, H. Qed.

Section FinalizeFacts.

Variable recordElemPositions_ : Row.t -> list (option Measurable.t).
Variable K : Constants.t.
Variable info : RenderInfo.

Local Abbreviation body := (finalize_body recordElemPositions_ K info).
Local Abbreviation upto := (loop_upto recordElemPositions_ K info).
Local Abbreviation Inv := (LoopInv K info).

(** One iteration, field by field. *)
Lemma body_length st i : length (cur_rows (body st i)) = length (cur_rows st).
Proof.
  unfold finalize_body. destruct (cur_rows st !! i); [|reflexivity].
  destruct (_ && _); cbn [cur_rows]; now rewrite ?length_alter.
Qed.

(** The test of iteration [i] and the cursor it leaves, when the row's
    height and the top row's ascender are still those before the pass. *)
Lemma body_yCursor st i r :
  cur_rows st !! i = Some r ->
  rowField Row.height (cur_rows st) i = rowField Row.height (rows info) i ->
  rowField Row.ascenderHeight (cur_rows st) (topRow info)
  = rowField Row.ascenderHeight (rows info) (topRow info) ->
  yCursor (body st i) = advance K info (yCursor st) i.
Proof.
  intros H Hh Ha. unfold finalize_body, advance, inflates, heightWithoutHatAt.
  rewrite H.
  rewrite !(rowField_alter_frame _ _ _ i) by reflexivity.
  rewrite Hh, Ha.
  destruct (_ && _); reflexivity.
Qed.

Lemma body_height_eq st i r :
  cur_rows st !! i = Some r ->
  rowField Row.height (cur_rows st) i = rowField Row.height (rows info) i ->
  rowField Row.ascenderHeight (cur_rows st) (topRow info)
  = rowField Row.ascenderHeight (rows info) (topRow info) ->
  rowField Row.height (cur_rows (body st i)) i
  = if inflates K info (yCursor st) i
    then rowField Row.height (rows info) i
         + (MIN_BLOCK_HEIGHT K - heightWithoutHatAt info (yCursor st) i)
    else rowField Row.height (rows info) i.
Proof.
  intros H Hh Ha. unfold finalize_body, inflates, heightWithoutHatAt.
  rewrite H.
  rewrite !(rowField_alter_frame _ _ _ i) by reflexivity.
  rewrite Hh, Ha.
  destruct (Nat.eqb i (bottomRow info)) eqn:Hb; cbn [andb].
  - apply Nat.eqb_eq in Hb. subst i.
    destruct (_ <? _); cbn [cur_rows].
    + rewrite (rowField_alter_frame Row.height) by reflexivity.
      erewrite rowField_alter_eq.
      2:{ rewrite list_lookup_alter_eq, H. reflexivity. }
      cbn [Row.height Row.set_height Row.set_xPos Row.set_yPos].
      rewrite <- Hh, (rowField_lookup _ _ _ _ H). reflexivity.
    + rewrite (rowField_alter_frame Row.height) by reflexivity.
      rewrite (rowField_alter_frame Row.height) by reflexivity.
      exact Hh.
  - cbn [cur_rows].
    rewrite (rowField_alter_frame Row.height) by reflexivity.
    rewrite (rowField_alter_frame Row.height) by reflexivity.
    exact Hh.
Qed.

Lemma body_height_ne st i j :
  i <> j ->
  rowField Row.height (cur_rows (body st i)) j
  = rowField Row.height (cur_rows st) j.
Proof.
  intros Hne. unfold finalize_body.
  destruct (cur_rows st !! i) eqn:H; [|reflexivity].
  destruct (Nat.eqb i (bottomRow info)) eqn:Hb; cbn [andb].
  - apply Nat.eqb_eq in Hb. subst i.
    destruct (_ <? _); cbn [cur_rows]; now rewrite !rowField_alter_ne.
  - cbn [cur_rows]. now rewrite !rowField_alter_ne.
Qed.

Lemma body_yPos_eq st i r :
  cur_rows st !! i = Some r ->
  rowField Row.yPos (cur_rows (body st i)) i = yCursor st.
Proof.
  intros H. unfold finalize_body. rewrite H.
  destruct (_ && _); cbn [cur_rows];
    rewrite ?(rowField_alter_frame Row.yPos
                (fun row => Row.set_elements _ row)) by reflexivity;
    rewrite ?(rowField_alter_frame Row.yPos
                (fun row => Row.set_height _ row)) by reflexivity;
    now erewrite rowField_alter_eq by exact H.
Qed.

Lemma body_yPos_ne st i j :
  i <> j ->
  rowField Row.yPos (cur_rows (body st i)) j
  = rowField Row.yPos (cur_rows st) j.
Proof.
  intros Hne. unfold finalize_body.
  destruct (cur_rows st !! i) eqn:H; [|reflexivity].
  destruct (_ && _); cbn [cur_rows];
    rewrite ?(rowField_alter_frame Row.yPos
                (fun row => Row.set_elements _ row)) by reflexivity;
    rewrite ?(rowField_alter_frame Row.yPos
                (fun row => Row.set_height _ row)) by reflexivity;
    now rewrite rowField_alter_ne.
Qed.

(** A field that no setter of the loop writes is left as it is. *)
Lemma body_frame (f : Row.t -> float) st i j :
  (forall v r, f (Row.set_yPos v r) = f r) ->
  (forall v r, f (Row.set_xPos v r) = f r) ->
  (forall v r, f (Row.set_height v r) = f r) ->
  (forall v r, f (Row.set_elements v r) = f r) ->
  rowField f (cur_rows (body st i)) j = rowField f (cur_rows st) j.
Proof.
  intros H1 H2 H3 H4. unfold finalize_body.
  destruct (cur_rows st !! i) eqn:H; [|reflexivity].
  destruct (_ && _); cbn [cur_rows];
    rewrite !rowField_alter_frame; auto; intros;
    rewrite ?H4, ?H3, ?H2, ?H1; auto.
Qed.

Lemma loop_upto_S k : upto (S k) = body (upto k) k.
Proof. unfold loop_upto. rewrite seq_S, foldl_app. reflexivity. Qed.

Lemma cursorAt_S k :
  cursorAt K info (S k) = advance K info (cursorAt K info k) k.
Proof. unfold cursorAt. rewrite seq_S, foldl_app. reflexivity. Qed.

Lemma LoopInv_start : Inv 0 (loop_start info).
Proof.
  split; cbn [loop_start cur_rows yCursor]; try reflexivity; intros; lia.
Qed.

Lemma LoopInv_step k st :
  (k < length (rows info))%nat -> Inv k st -> Inv (S k) (body st k).
Proof.
  intros Hk I.
  assert (Hlen := inv_length _ _ _ _ I).
  destruct (lookup_lt_is_Some_2 (cur_rows st) k ltac:(lia)) as [r Hr].
  pose proof (inv_later _ _ _ _ I k (Nat.le_refl k)) as Hh.
  pose proof (inv_asc _ _ _ _ I (topRow info)) as Ha.
  split.
  - rewrite body_length. exact Hlen.
  - rewrite (body_yCursor _ _ _ Hr Hh Ha), cursorAt_S.
    now rewrite (inv_cursor _ _ _ _ I).
  - intros j Hj. destruct (decide (j = k)) as [->|Hne].
    + rewrite (body_yPos_eq _ _ _ Hr). apply (inv_cursor _ _ _ _ I).
    + rewrite body_yPos_ne by congruence. apply (inv_yPos _ _ _ _ I). lia.
  - intros j Hj. rewrite body_height_ne by lia.
    apply (inv_later _ _ _ _ I). lia.
  - intros j Hj. destruct (decide (j = k)) as [->|Hne].
    + rewrite (body_height_eq _ _ _ Hr Hh Ha). unfold finalHeight.
      now rewrite (inv_cursor _ _ _ _ I).
    + rewrite body_height_ne by congruence.
      apply (inv_done _ _ _ _ I). lia.
  - intros j. rewrite body_frame by reflexivity. apply (inv_asc _ _ _ _ I).
  - intros j. rewrite body_frame by reflexivity. apply (inv_desc _ _ _ _ I).
Qed.

Lemma LoopInv_upto k : (k <= length (rows info))%nat -> Inv k (upto k).
Proof.
  induction k as [|k IH]; intros Hk.
  - apply LoopInv_start.
  - rewrite loop_upto_S. apply LoopInv_step; [lia|]. apply IH. lia.
Qed.

Lemma finalHeight_other i :
  i <> bottomRow info ->
  finalHeight K info i = rowField Row.height (rows info) i.
Proof.
  intros Hi. unfold finalHeight, inflates.
  apply Nat.eqb_neq in Hi. now rewrite Hi.
Qed.

End FinalizeFacts.

(** C3, as stated, fails: every [+=] of the source is a binary64 addition
    and is rounded, and the inflation is added to the bottom row's height
    and to the Y cursor separately.  On a block of two rows 0.1 high, under
    a minimum of 24, the block height is 24, the rows end up 0.1 and
    [0.1 + 23.8] high, and the sum of these heights is above 24.  On a
    block of rows 15.3, 10 and 5 high whose hat ascender is 10.3, the
    bottom row is inflated and the block height without the ascender
    still is below the minimum of 24. *)
Lemma finalize_height_is_not_the_sum_of_heights :
  (let info' :=
     finalize_ Examples.keepElements Examples.K0 Examples.fractionalInfo in
   info_height info' = 24
   /\ List.map Row.height (rows info') = [0.1; 0.1 + 23.8]
   /\ sumHeights (rows info') = 0.1 + (0.1 + 23.8)
   /\ (info_height info' <? sumHeights (rows info')) = true)
  /\ (let info' :=
        finalize_ Examples.keepElements Examples.K0 Examples.hatInfo in
      rowField Row.ascenderHeight (rows Examples.hatInfo)
        (topRow Examples.hatInfo) = 10.3
      /\ List.map Row.height (rows info') = [15.3; 10; 9]
      /\ (info_height info' - 10.3 <? MIN_BLOCK_HEIGHT Examples.K0) = true).
Proof. repeat split; vm_compute; reflexivity. Qed.

(** C3, amended.  After [finalize_], each row's [yPos] is the running sum
    of the heights of the rows above it, added top to bottom in binary64
    arithmetic, and the block height is that running sum over all rows.
    For every row but the bottom row, the running sum after the row (the
    next row's [yPos], or the block height after the last row) is the
    row's [yPos] plus its height: no gap, no overlap.  Only the bottom
    row's height changes: when the running sum after it, less the top
    row's ascender, is below [MIN_BLOCK_HEIGHT], the difference is added
    to the bottom row's height and, after that height, to the running
    sum.  The bottom row's baseline is the final Y cursor (the block
    height) minus the bottom row's descender height. *)
Theorem finalize_block_height recordElemPositions_ K info :
  (bottomRow info < length (rows info))%nat ->
  let info' := finalize_ recordElemPositions_ K info in
  let ascender := rowField Row.ascenderHeight (rows info) (topRow info) in
  let y := cursorAt K info (bottomRow info) in
  let h := rowField Row.height (rows info) (bottomRow info) in
  let natural := y + h - ascender in
  length (rows info') = length (rows info)
  /\ info_height info' = cursorAt K info (length (rows info))
  /\ cursorAt K info 0 = 0
  /\ (forall i r, rows info' !! i = Some r ->
      Row.yPos r = cursorAt K info i)
  /\ (forall i r, rows info' !! i = Some r -> i <> bottomRow info ->
      cursorAt K info (S i) = Row.yPos r + Row.height r)
  /\ (forall i, i <> bottomRow info ->
      rowField Row.height (rows info') i = rowField Row.height (rows info) i)
  /\ (if natural <? MIN_BLOCK_HEIGHT K
      then rowField Row.height (rows info') (bottomRow info)
           = h + (MIN_BLOCK_HEIGHT K - natural)
           /\ cursorAt K info (S (bottomRow info))
              = y + h + (MIN_BLOCK_HEIGHT K - natural)
      else rowField Row.height (rows info') (bottomRow info) = h
           /\ cursorAt K info (S (bottomRow info)) = y + h)
  /\ rowField Row.baseline (rows info') (bottomRow info)
     = info_height info'
       - rowField Row.descenderHeight (rows info') (bottomRow info).
Proof.
  intros Hb info' ascender y h natural0.
  pose proof (LoopInv_upto recordElemPositions_ K info (length (rows info))
                (Nat.le_refl _)) as I.
  set (st := loop_upto recordElemPositions_ K info (length (rows info))) in *.
  assert (Hrows : rows info'
            = alter (fun row => Row.set_baseline
                                  (yCursor st - Row.descenderHeight row) row)
                (bottomRow info) (cur_rows st)) by reflexivity.
  assert (Hh : info_height info' = yCursor st) by reflexivity.
  assert (Hlen := inv_length _ _ _ _ I).
  assert (Hlt : forall i r, rows info' !! i = Some r ->
                            (i < length (rows info))%nat).
  { intros i r Hr. apply lookup_lt_Some in Hr.
    rewrite Hrows, length_alter in Hr. lia. }
  assert (Hy : forall i r, rows info' !! i = Some r ->
                           Row.yPos r = cursorAt K info i).
  { intros i r Hr. rewrite <- (inv_yPos _ _ _ _ I i (Hlt i r Hr)).
    rewrite <- (rowField_lookup Row.yPos _ _ _ Hr).
    rewrite Hrows, rowField_alter_frame by reflexivity. reflexivity. }
  assert (Hfin : forall i, (i < length (rows info))%nat ->
            rowField Row.height (rows info') i = finalHeight K info i).
  { intros i Hi. rewrite Hrows, rowField_alter_frame by reflexivity.
    now apply (inv_done _ _ _ _ I). }
  split; [rewrite Hrows, length_alter; exact Hlen|].
  split; [rewrite Hh; apply (inv_cursor _ _ _ _ I)|].
  split; [reflexivity|].
  split; [exact Hy|].
  split; [|split; [|split]].
  - intros i r Hr Hi. rewrite (Hy i r Hr).
    rewrite <- (rowField_lookup Row.height _ _ _ Hr).
    rewrite (Hfin i (Hlt i r Hr)), (finalHeight_other _ _ _ Hi).
    rewrite cursorAt_S. unfold advance, inflates.
    apply Nat.eqb_neq in Hi. now rewrite Hi.
  - intros i Hi.
    destruct (decide (i < length (rows info))%nat) as [Hl|Hl].
    + rewrite (Hfin i Hl). now apply finalHeight_other.
    + unfold rowField.
      rewrite (lookup_ge_None_2 (rows info') i)
        by (rewrite Hrows, length_alter; lia).
      now rewrite (lookup_ge_None_2 (rows info) i) by lia.
  - rewrite (Hfin _ Hb), cursorAt_S.
    unfold finalHeight, advance, inflates, heightWithoutHatAt.
    rewrite Nat.eqb_refl. cbn [andb].
    fold y h ascender natural0.
    destruct (natural0 <? MIN_BLOCK_HEIGHT K); split; reflexivity.
  - rewrite Hh, Hrows.
    destruct (lookup_lt_is_Some_2 (cur_rows st) (bottomRow info) ltac:(lia))
      as [r Hr].
    rewrite !(rowField_alter_eq _ _ _ _ _ Hr). reflexivity.
Qed.

(** A block of rows 5, 10 and 5 high under a minimum of 24: the bottom row
    is inflated by 4 and starts at 15, and the block is 24 high. *)
Lemma finalize_block_height_witness :
  (bottomRow Examples.sampleInfo < length (rows Examples.sampleInfo))%nat
  /\ info_height (finalize_ Examples.keepElements Examples.K0 Examples.sampleInfo)
     = cursorAt Examples.K0 Examples.sampleInfo 3
  /\ cursorAt Examples.K0 Examples.sampleInfo 3 = 24
  /\ cursorAt Examples.K0 Examples.sampleInfo 2 = 15
  /\ rowField Row.height
       (rows (finalize_ Examples.keepElements Examples.K0 Examples.sampleInfo)) 2
     = 5 + (24 - 20).
Proof.
  assert (H : (bottomRow Examples.sampleInfo
               < length (rows Examples.sampleInfo))%nat)
    by (cbn [bottomRow rows Examples.sampleInfo length]; lia).
  split; [exact H|].
  destruct (finalize_block_height Examples.keepElements Examples.K0
              Examples.sampleInfo H)
    as (_ & Hsum & _ & _ & _ & _ & Hbottom & _).
  split; [exact Hsum|].
  split; [vm_compute; reflexivity|]. split; [vm_compute; reflexivity|].
  vm_compute in Hbottom. vm_compute. exact (proj1 Hbottom).
Defined.

End ThrasosProofs.

(** ** Blockly.geras.PathObject *)

Module GerasProofs.
Import Geras.
Local Open Scope string_scope.

Lemma setAttribute_twice name v w e :
  setAttribute name v (setAttribute name w e) = setAttribute name v e.
Proof.
  unfold setAttribute. cbn [tagName attributes]. now rewrite insert_insert_eq.
Qed.

Lemma getAttribute_setAttribute name v e :
  getAttribute name (setAttribute name v e) = Some v.
Proof.
  unfold getAttribute, setAttribute. cbn [attributes]. apply lookup_insert_eq.
Qed.

Lemma getAttribute_setAttribute_ne name name' v e :
  name <> name' ->
  getAttribute name' (setAttribute name v e) = getAttribute name' e.
Proof.
  intros H. unfold getAttribute, setAttribute. cbn [attributes].
  now apply lookup_insert_ne.
Qed.

Lemma flipRTL_idempotent po : flipRTL (flipRTL po) = flipRTL po.
Proof.
  unfold flipRTL. cbn [svgPath svgPathDark svgPathLight].
  now rewrite !setAttribute_twice.
Qed.

Lemma flips_S n po : flips (S n) po = flipRTL po.
Proof.
  induction n as [|n IH]; [reflexivity|].
  change (flips (S (S n)) po) with (flipRTL (flips (S n) po)).
  rewrite IH. apply flipRTL_idempotent.
Qed.

Lemma transforms_flipRTL po :
  transforms (flipRTL po)
  = (Some "translate(1,1) scale(-1 1)", Some "scale(-1 1)",
     Some "scale(-1 1)").
Proof.
  unfold transforms, flipRTL. cbn [svgPath svgPathDark svgPathLight].
  now rewrite !getAttribute_setAttribute.
Qed.

Lemma transforms_new :
  transforms PathObject_new = (Some "translate(1,1)", None, None).
Proof. vm_compute. reflexivity. Qed.

(** C7, as stated, fails: on a freshly constructed path object the
    transform attributes after two calls of [flipRTL] are not the ones
    before the first call. *)
Lemma flipRTL_twice_is_not_identity :
  transforms (flipRTL (flipRTL PathObject_new)) <> transforms PathObject_new.
Proof. rewrite transforms_flipRTL, transforms_new. discriminate. Qed.

(** C7, amended.  [flipRTL] is idempotent: two calls (any number of calls,
    from one on) leave the attribute state of one call, in which the
    primary and light paths carry [scale(-1 1)] and the dark path
    [translate(1,1) scale(-1 1)].  The dark path's transform carries the
    (1,1) translation after any number of calls on a new path object, zero
    and two included, and [flipRTL] writes no attribute but [transform]. *)
Theorem flipRTL_idempotent_mirror :
  (forall po, flipRTL (flipRTL po) = flipRTL po)
  /\ (forall n po, flips (S n) po = flipRTL po)
  /\ (forall n po,
       transforms (flips (S n) po)
       = (Some "translate(1,1) scale(-1 1)", Some "scale(-1 1)",
          Some "scale(-1 1)"))
  /\ (forall n, darkIsTranslated (flips n PathObject_new) = true)
  /\ (forall po name, name <> "transform" ->
       getAttribute name (svgPathDark (flipRTL po))
       = getAttribute name (svgPathDark po)
       /\ getAttribute name (svgPath (flipRTL po))
          = getAttribute name (svgPath po)
       /\ getAttribute name (svgPathLight (flipRTL po))
          = getAttribute name (svgPathLight po)).
Proof.
  split; [exact flipRTL_idempotent|].
  split; [exact flips_S|].
  split; [intros n po; rewrite flips_S; apply transforms_flipRTL|].
  split.
  - intros [|n].
    + vm_compute. reflexivity.
    + rewrite flips_S. unfold darkIsTranslated, flipRTL. cbn [svgPathDark].
      rewrite getAttribute_setAttribute. reflexivity.
  - intros po name H. unfold flipRTL. cbn [svgPath svgPathDark svgPathLight].
    rewrite !getAttribute_setAttribute_ne by congruence. auto.
Qed.

(** Two flips of a new path object with its paths set: the state of one
    flip, and the path data untouched. *)
Lemma flipRTL_idempotent_mirror_witness :
  flipRTL (flipRTL (setPaths "m 0,0 h 40" "m 1,1 h 38" PathObject_new))
  = flipRTL (setPaths "m 0,0 h 40" "m 1,1 h 38" PathObject_new)
  /\ getAttribute "d"
       (svgPathDark
          (flipRTL (setPaths "m 0,0 h 40" "m 1,1 h 38" PathObject_new)))
     = Some "m 0,0 h 40".
Proof.
  destruct flipRTL_idempotent_mirror as (Hidem & _ & _ & _ & Hother).
  split; [apply Hidem|].
  destruct (Hother (setPaths "m 0,0 h 40" "m 1,1 h 38" PathObject_new) "d")
    as (Hdark & _); [discriminate|].
  rewrite Hdark. vm_compute. reflexivity.
Defined.

End GerasProofs.

(** ** Blockly.RenderedConnection *)

Module RenderedConnectionProofs.
Import RenderedConnection.
Local Open Scope string_scope.
Local Open Scope list_scope.

(** *** distanceFrom, isConnectionAllowed *)

(** C8.  [distanceFrom] is the Euclidean distance of the two connections'
    coordinates, the square root of the sum of the squared coordinate
    differences; between (0,0) and (3,4) it is exactly 5.
    [isConnectionAllowed] answers false whenever the distance exceeds
    [maxRadius], and otherwise the answer of the base class's
    compatibility check. *)
Theorem distanceFrom_isConnectionAllowed :
  (forall this other,
      x_ this = 0%float -> y_ this = 0%float ->
      x_ other = 3%float -> y_ other = 4%float ->
      distanceFrom this other = 5%float)
  /\ (forall this other,
      distanceFrom this other
      = PrimFloat.sqrt
          ((x_ this - x_ other) * (x_ this - x_ other)
           + (y_ this - y_ other) * (y_ this - y_ other))%float)
  /\ (forall super this candidate maxRadius,
      gt (distanceFrom this candidate) maxRadius = true ->
      isConnectionAllowed super this candidate maxRadius = false)
  /\ (forall super this candidate maxRadius,
      gt (distanceFrom this candidate) maxRadius = false ->
      isConnectionAllowed super this candidate maxRadius
      = super this candidate).
Proof.
  repeat split.
  - intros this other H1 H2 H3 H4. unfold distanceFrom.
    rewrite H1, H2, H3, H4. vm_compute. reflexivity.
  - intros super this candidate r H. unfold isConnectionAllowed. now rewrite H.
  - intros super this candidate r H. unfold isConnectionAllowed. now rewrite H.
Qed.

(** Connections at (0,0) and (3,4): distance 5, allowed within radius 10
    by a check that allows every pair, refused within radius 4. *)
Lemma distanceFrom_isConnectionAllowed_witness :
  distanceFrom
    (Examples.connectionAt 7 NEXT_STATEMENT Examples.parentBlock0 0 0)
    (Examples.connectionAt 8 PREVIOUS_STATEMENT Examples.childBlock0 3 4)
  = 5%float
  /\ isConnectionAllowed Examples.allowAll
       (Examples.connectionAt 7 NEXT_STATEMENT Examples.parentBlock0 0 0)
       (Examples.connectionAt 8 PREVIOUS_STATEMENT Examples.childBlock0 3 4)
       10
     = true
  /\ isConnectionAllowed Examples.allowAll
       (Examples.connectionAt 7 NEXT_STATEMENT Examples.parentBlock0 0 0)
       (Examples.connectionAt 8 PREVIOUS_STATEMENT Examples.childBlock0 3 4)
       4
     = false.
Proof.
  destruct distanceFrom_isConnectionAllowed as (Hfive & _ & Hfar & Hnear).
  split; [apply Hfive; reflexivity|].
  split; [rewrite Hnear; [reflexivity|vm_compute; reflexivity]|].
  apply Hfar. vm_compute. reflexivity.
Defined.

(** On the integer grid up to 40 by 40, wherever the squared distance from
    the origin is a perfect square, [distanceFrom] is its exact root. *)
Lemma distanceFrom_exact_on_grid :
  forallb
    (fun a =>
       forallb
         (fun b =>
            let n := Z.sqrt (a * a + b * b) in
            negb (Z.eqb (n * n) (a * a + b * b))
            || PrimFloat.eqb
                 (distanceFrom
                    (Examples.connectionAt 1 INPUT_VALUE Examples.parentBlock0
                       (PrimFloat.of_uint63 (Uint63.of_Z a))
                       (PrimFloat.of_uint63 (Uint63.of_Z b)))
                    (Examples.connectionAt 2 OUTPUT_VALUE Examples.childBlock0
                       0 0))
                 (PrimFloat.of_uint63 (Uint63.of_Z n)))
         (map Z.of_nat (seq 0 41)))
    (map Z.of_nat (seq 0 41))
  = true.
Proof. vm_compute. reflexivity. Qed.

(** *** The connection database under moveTo and setHidden *)

Lemma entries_app i a b : entries i (a ++ b) = entries i a ++ entries i b.
Proof. apply List.filter_app. Qed.

Lemma entries_splice_in i pos e arr :
  entries i arr = [] -> entry_id e = i ->
  entries i (splice_in pos e arr) = [e].
Proof.
  intros Hnil He. unfold splice_in.
  rewrite <- (take_drop pos arr), entries_app in Hnil.
  apply app_eq_nil in Hnil as [H1 H2].
  rewrite entries_app. cbn [entries List.filter].
  fold (entries i (drop pos arr)).
  rewrite H1, H2, He, Nat.eqb_refl. reflexivity.
Qed.

Lemma entries_remove_entry i arr :
  entries i (remove_entry i arr) = tail (entries i arr).
Proof.
  induction arr as [|e arr IH]; [reflexivity|].
  cbn [remove_entry entries List.filter].
  destruct (Nat.eqb (entry_id e) i) eqn:E; [reflexivity|].
  cbn [entries List.filter]. rewrite E. exact IH.
Qed.

Lemma present_entries i arr : present i arr = true <-> entries i arr <> [].
Proof.
  unfold present, entries. induction arr as [|e arr IH]; cbn.
  - split; [discriminate|congruence].
  - destruct (Nat.eqb (entry_id e) i); cbn;
      [split; [discriminate|reflexivity]|exact IH].
Qed.

Section DatabaseFacts.

Variable findPosition : list DBEntry -> t -> nat.

Lemma addConnection_flagAgrees s :
  flagAgrees s -> inDB_ (conn s) = false ->
  flagAgrees (addConnection findPosition s).
Proof.
  unfold flagAgrees. intros H Hin. rewrite Hin in H.
  unfold addConnection. cbn [conn db_ id set_inDB_ inDB_ filed x_ y_].
  apply entries_splice_in; [exact H|reflexivity].
Qed.

Lemma removeConnection_flagAgrees s :
  flagAgrees s -> flagAgrees (removeConnection_ s).
Proof.
  unfold flagAgrees. intros H. unfold removeConnection_.
  cbn [conn db_ id set_inDB_ inDB_].
  rewrite entries_remove_entry, H. destruct (inDB_ (conn s)); reflexivity.
Qed.

Lemma moveTo_flagAgrees x y s :
  flagAgrees s -> flagAgrees (moveTo findPosition x y s).
Proof.
  intros H. unfold moveTo.
  set (s1 := if inDB_ (conn s) then removeConnection_ s else s).
  assert (H1 : flagAgrees s1 /\ inDB_ (conn s1) = false).
  { subst s1. destruct (inDB_ (conn s)) eqn:E.
    - split; [apply removeConnection_flagAgrees, H|reflexivity].
    - split; [exact H|exact E]. }
  destruct H1 as (Hw & Hin).
  set (s2 := mkTracked (set_xy x y (conn s1)) (db_ s1)).
  assert (H2 : flagAgrees s2 /\ inDB_ (conn s2) = false).
  { split; [|exact Hin]. unfold flagAgrees in *. subst s2.
    cbn [conn db_ id set_xy inDB_]. rewrite Hin in *. exact Hw. }
  destruct H2 as (Hw2 & Hin2).
  destruct (negb (hidden_ (conn s2)));
    [apply addConnection_flagAgrees; assumption|exact Hw2].
Qed.

Lemma setHidden_flagAgrees h s :
  flagAgrees s -> flagAgrees (setHidden findPosition h s).
Proof.
  intros H. unfold setHidden.
  set (s1 := mkTracked (set_hidden_ h (conn s)) (db_ s)).
  assert (Hw : flagAgrees s1) by exact H.
  destruct (h && inDB_ (conn s1)) eqn:E1;
    [apply removeConnection_flagAgrees, Hw|].
  destruct (negb h && negb (inDB_ (conn s1))) eqn:E2; [|exact Hw].
  apply addConnection_flagAgrees; [exact Hw|].
  apply andb_true_iff in E2 as [_ E2]. now apply negb_true_iff in E2.
Qed.

Lemma step_flagAgrees s op :
  flagAgrees s -> flagAgrees (step findPosition s op).
Proof. destruct op; [apply moveTo_flagAgrees|apply setHidden_flagAgrees]. Qed.

(** After either call the membership flag is the negation of the hidden
    flag. *)
Lemma step_flags s op :
  inDB_ (conn (step findPosition s op))
  = negb (hidden_ (conn (step findPosition s op))).
Proof.
  destruct s as [[? ? ? ? ? ? inDB hidden] db].
  destruct op as [x y|h]; cbn [step].
  - unfold moveTo, addConnection, removeConnection_.
    destruct inDB, hidden; reflexivity.
  - unfold setHidden, addConnection, removeConnection_.
    destruct h, inDB; reflexivity.
Qed.

Lemma run_flagAgrees ops s :
  flagAgrees s -> flagAgrees (run findPosition ops s).
Proof.
  revert s. induction ops as [|op ops IH]; intros s H; [exact H|].
  apply IH, step_flagAgrees, H.
Qed.

Lemma run_snoc ops op s :
  run findPosition (ops ++ [op]) s
  = step findPosition (run findPosition ops s) op.
Proof. unfold run. now rewrite foldl_app. Qed.

Lemma flagAgrees_noStaleEntry s : flagAgrees s -> noStaleEntry s.
Proof.
  unfold flagAgrees, noStaleEntry. intros H e He Hid.
  assert (Hin : In e (entries (id (conn s)) (db_ s))).
  { apply List.filter_In. split; [exact He|]. now apply Nat.eqb_eq. }
  rewrite H in Hin. destruct (inDB_ (conn s)); [|destruct Hin].
  destruct Hin as [<-|[]]. split; reflexivity.
Qed.

Lemma flagAgrees_present s :
  flagAgrees s -> present (id (conn s)) (db_ s) = inDB_ (conn s).
Proof.
  unfold flagAgrees. intros H. destruct (inDB_ (conn s)).
  - apply present_entries. rewrite H. discriminate.
  - apply not_true_is_false. intros Hp. apply present_entries in Hp. auto.
Qed.

Lemma new_flagAgrees i source type db :
  present i db = false ->
  flagAgrees (RenderedConnection_new i source type db).
Proof.
  intros Hfresh. unfold flagAgrees.
  cbn [conn db_ id inDB_ RenderedConnection_new].
  destruct (entries i db) eqn:E; [reflexivity|].
  assert (present i db = true) by (apply present_entries; congruence).
  congruence.
Qed.

End DatabaseFacts.

(** C2.  A rendered connection is created outside its database.  After
    any sequence of one or more [moveTo] and [setHidden] calls it has an
    entry in the database if and only if it is not hidden, and the
    database holds no entry of it filed under coordinates other than its
    current ones ([moveTo] takes the old entry out before it writes the
    coordinates, and files a new one only when the connection is not
    hidden). *)
Theorem tracked_iff_not_hidden findPosition i source type db ops :
  present i db = false ->
  ops <> [] ->
  let s := run findPosition ops (RenderedConnection_new i source type db) in
  (present (id (conn s)) (db_ s) = true <-> hidden_ (conn s) = false)
  /\ noStaleEntry s.
Proof.
  intros Hfresh Hops s.
  assert (W : flagAgrees s)
    by apply run_flagAgrees, new_flagAgrees, Hfresh.
  split; [|apply flagAgrees_noStaleEntry, W].
  rewrite (flagAgrees_present s W).
  destruct (exists_last Hops) as (ops' & op & ->).
  subst s. rewrite run_snoc.
  rewrite step_flags. destruct (hidden_ _); cbn; split; congruence.
Qed.

(** Move, hide, move while hidden, unhide: the connection ends in the
    database, filed once under the coordinates of its last move. *)
Lemma tracked_iff_not_hidden_witness :
  present 7 [mkDBEntry 3 1 1] = false
  /\ [MoveTo 10 20; SetHidden true; MoveTo 30 40; SetHidden false] <> []
  /\ noStaleEntry
       (run Examples.atFront
          [MoveTo 10 20; SetHidden true; MoveTo 30 40; SetHidden false]
          (RenderedConnection_new 7 Examples.parentBlock0 NEXT_STATEMENT
             [mkDBEntry 3 1 1]))
  /\ db_ (run Examples.atFront
            [MoveTo 10 20; SetHidden true; MoveTo 30 40; SetHidden false]
            (RenderedConnection_new 7 Examples.parentBlock0 NEXT_STATEMENT
               [mkDBEntry 3 1 1]))
     = [mkDBEntry 7 30 40; mkDBEntry 3 1 1].
Proof.
  split; [reflexivity|]. split; [discriminate|].
  split; [|reflexivity].
  apply (tracked_iff_not_hidden Examples.atFront 7 Examples.parentBlock0
           NEXT_STATEMENT [mkDBEntry 3 1 1]
           [MoveTo 10 20; SetHidden true; MoveTo 30 40; SetHidden false]);
    [reflexivity|discriminate].
Defined.

(** *** connect_ and disconnectInternal_ *)

(** C5.  When both source blocks are rendered, [connect_] issues exactly
    one render call: on the child block when the superior connection is a
    next or previous statement connection, on the parent block otherwise. *)
Theorem connect_renders_once this childConnection :
  rendered (getSourceBlock this) = true ->
  rendered (getSourceBlock childConnection) = true ->
  outcome (connect_ this childConnection) = Normal tt
  /\ (type this = NEXT_STATEMENT \/ type this = PREVIOUS_STATEMENT ->
      renderCalls (calls (connect_ this childConnection))
      = [block_id (getSourceBlock childConnection)])
  /\ (type this <> NEXT_STATEMENT -> type this <> PREVIOUS_STATEMENT ->
      renderCalls (calls (connect_ this childConnection))
      = [block_id (getSourceBlock this)]).
Proof.
  intros Hp Hc. unfold connect_. rewrite Hp, Hc. cbn [andb when].
  split; [|split].
  - destruct (_ || _); reflexivity.
  - intros [E|E]; rewrite E; reflexivity.
  - intros H1 H2. apply Z.eqb_neq in H1, H2. rewrite H1, H2. reflexivity.
Qed.

(** A next connection of rendered block 1 joined to rendered block 2:
    only block 2 is rendered. *)
Lemma connect_renders_once_witness :
  rendered Examples.parentBlock0 = true
  /\ rendered Examples.childBlock0 = true
  /\ renderCalls
       (calls
          (connect_
             (Examples.connectionAt 7 NEXT_STATEMENT Examples.parentBlock0 0 20)
             (Examples.connectionAt 8 PREVIOUS_STATEMENT Examples.childBlock0
                0 20)))
     = [2%nat].
Proof.
  split; [reflexivity|]. split; [reflexivity|].
  destruct (connect_renders_once
              (Examples.connectionAt 7 NEXT_STATEMENT Examples.parentBlock0 0 20)
              (Examples.connectionAt 8 PREVIOUS_STATEMENT Examples.childBlock0
                 0 20) eq_refl eq_refl) as (_ & Hchild & _).
  apply Hchild. left. reflexivity.
Defined.

(** C6, as stated, fails: with both blocks rendered, [disconnectInternal_]
    does not refresh the disabled state of the parent block. *)
Lemma disconnectInternal_leaves_parent_state :
  ~ refreshesBothSides Examples.parentBlock0 Examples.childBlock0
      (calls
         (disconnectInternal_
            (Examples.connectionAt 7 NEXT_STATEMENT Examples.parentBlock0 0 20)
            Examples.parentBlock0 Examples.childBlock0)).
Proof. intros [H _]. cbn in H. intuition discriminate. Qed.

(** C6, amended.  [disconnectInternal_] renders each side that is
    rendered, the parent first, and refreshes the disabled state of the
    child block only, and only when the child is rendered. *)
Theorem disconnectInternal_calls this parentBlock childBlock :
  outcome (disconnectInternal_ this parentBlock childBlock) = Normal tt
  /\ renderCalls (calls (disconnectInternal_ this parentBlock childBlock))
     = (if rendered parentBlock then [block_id parentBlock] else [])
       ++ (if rendered childBlock then [block_id childBlock] else [])
  /\ updateDisabledCalls
       (calls (disconnectInternal_ this parentBlock childBlock))
     = (if rendered childBlock then [block_id childBlock] else []).
Proof.
  unfold disconnectInternal_.
  destruct (rendered parentBlock), (rendered childBlock); repeat split.
Qed.

(** *** Contract violations *)

(** C9, as stated, fails for [tighten_]: when the two connections are at
    the same coordinates, [tighten_] returns normally although the target
    block has no SVG root. *)
Lemma tighten_aligned_does_not_throw :
  getSvgRoot
    (getSourceBlock
       (Examples.connectionAt 8 PREVIOUS_STATEMENT Examples.unrenderedBlock
          5 5)) = None
  /\ tighten_
       (Examples.connectionAt 7 NEXT_STATEMENT Examples.parentBlock0 5 5)
       (Examples.connectionAt 8 PREVIOUS_STATEMENT Examples.unrenderedBlock
          5 5)
     = ([], Normal tt).
Proof. split; vm_compute; reflexivity. Qed.

End RenderedConnectionProofs.

(** ** Blockly.ThemeManager and the contract violations *)

Module ContractProofs.
Import RenderedConnection.
Local Open Scope string_scope.
Local Open Scope list_scope.

Lemma indexOf_absent arr w :
  ~ In w arr -> ThemeManager.indexOf arr w = (-1)%Z.
Proof.
  induction arr as [|a arr IH]; intros H; [reflexivity|].
  cbn [ThemeManager.indexOf].
  destruct (Nat.eqb a w) eqn:E.
  - apply Nat.eqb_eq in E. subst. exfalso. apply H. now left.
  - rewrite IH by (intros Hin; apply H; now right). reflexivity.
Qed.

Lemma splice_out_subset index arr w :
  In w (ThemeManager.splice_out index arr) -> In w arr.
Proof.
  unfold ThemeManager.splice_out. revert index.
  induction arr as [|a arr IH]; intros [|index] H; cbn in *; auto.
  destruct H as [H|H]; [now left|right]. apply (IH index), H.
Qed.

Lemma unsubscribe_absent tm workspace :
  ~ In workspace (ThemeManager.subscribedWorkspaces_ tm) ->
  ThemeManager.unsubscribeWorkspace workspace tm
  = Throw "Cannot unsubscribe a workspace that hasn't been subscribed.".
Proof.
  intros H. unfold ThemeManager.unsubscribeWorkspace.
  rewrite (indexOf_absent _ _ H). reflexivity.
Qed.

(** A workspace that no call of a sequence subscribes is not among the
    subscribed workspaces after the sequence. *)
Lemma run_never_subscribed ops tm tm' w :
  ThemeManager.run ops tm = Normal tm' ->
  ~ In w (ThemeManager.subscribedWorkspaces_ tm) ->
  ~ In (ThemeManager.Subscribe w) ops ->
  ~ In w (ThemeManager.subscribedWorkspaces_ tm').
Proof.
  revert tm. induction ops as [|op ops IH]; intros tm Hrun Hw Hops.
  - injection Hrun as <-. exact Hw.
  - cbn [ThemeManager.run] in Hrun.
    destruct (ThemeManager.step op tm) as [tm1|] eqn:Hs; [|discriminate].
    apply (IH tm1 Hrun); [|intros Hin; apply Hops; now right].
    destruct op as [v|v]; cbn [ThemeManager.step] in Hs.
    + injection Hs as <-. cbn [ThemeManager.subscribedWorkspaces_].
      intros Hin. apply in_app_or in Hin as [Hin|[->|[]]]; [auto|].
      apply Hops. now left.
    + unfold ThemeManager.unsubscribeWorkspace in Hs.
      destruct (_ <? 0)%Z; [discriminate|]. injection Hs as <-.
      cbn [ThemeManager.subscribedWorkspaces_]. intros Hin. apply Hw.
      eapply splice_out_subset, Hin.
Qed.

(** C9, amended.  Each contract violation raises an error that ends the
    operation on the spot.  [tighten_] throws when the target block has no
    SVG root and the two connections are not at the same coordinates, and
    has made no call by then.  [respawnShadow_] throws when it has
    respawned the shadow and the target block is still absent, and makes
    no call after the respawn.  [unsubscribeWorkspace] throws for a
    workspace that is not among the subscribed ones, in particular one
    that was never subscribed. *)
Theorem contract_violations_throw :
  (forall this targetConnection,
      getSvgRoot (getSourceBlock targetConnection) = None ->
      neq (x_ targetConnection - x_ this) 0 = true
      \/ neq (y_ targetConnection - y_ this) 0 = true ->
      tighten_ this targetConnection = ([], Throw "block is not rendered."))
  /\ (forall this,
      has_workspace (getSourceBlock this) = true ->
      respawnShadow_ this true true None
      = ([super_respawnShadow_ (id this)],
         Throw "Couldn't respawn the shadow block that should exist here."))
  /\ (forall tm workspace,
      ~ In workspace (ThemeManager.subscribedWorkspaces_ tm) ->
      ThemeManager.unsubscribeWorkspace workspace tm
      = Throw "Cannot unsubscribe a workspace that hasn't been subscribed.")
  /\ (forall theme ops tm workspace,
      ThemeManager.run ops (ThemeManager.ThemeManager_new theme) = Normal tm ->
      ~ In (ThemeManager.Subscribe workspace) ops ->
      ThemeManager.unsubscribeWorkspace workspace tm
      = Throw "Cannot unsubscribe a workspace that hasn't been subscribed.").
Proof.
  split; [|split; [|split]].
  - intros this target Hroot Hmoved. unfold tighten_. rewrite Hroot.
    assert (neq (x_ target - x_ this) 0 || neq (y_ target - y_ this) 0
            = true) as ->.
    { apply orb_true_iff. exact Hmoved. }
    reflexivity.
  - intros this Hw. unfold respawnShadow_. rewrite Hw. reflexivity.
  - exact unsubscribe_absent.
  - intros theme ops tm w Hrun Hops. apply unsubscribe_absent.
    eapply run_never_subscribed; [exact Hrun| |exact Hops].
    cbn. auto.
Qed.

(** A connection 20 units above an unrendered target block, a respawn
    that leaves no shadow, and a manager that has seen workspaces 1 and 2
    only and is asked to drop workspace 3. *)
Lemma contract_violations_throw_witness :
  tighten_
    (Examples.connectionAt 7 NEXT_STATEMENT Examples.parentBlock0 5 5)
    (Examples.connectionAt 8 PREVIOUS_STATEMENT Examples.unrenderedBlock 5 25)
  = ([], Throw "block is not rendered.")
  /\ outcome
       (respawnShadow_
          (Examples.connectionAt 7 INPUT_VALUE Examples.parentBlock0 5 5)
          true true None)
     = Throw "Couldn't respawn the shadow block that should exist here."
  /\ ThemeManager.unsubscribeWorkspace 3
       (ThemeManager.mk 0 [1%nat])
     = Throw "Cannot unsubscribe a workspace that hasn't been subscribed.".
Proof.
  destruct contract_violations_throw as (Htighten & Hshadow & _ & Hnever).
  split; [apply Htighten; [reflexivity|right; vm_compute; reflexivity]|].
  split; [rewrite Hshadow; reflexivity|].
  apply (Hnever 0%nat
           [ThemeManager.Subscribe 1; ThemeManager.Subscribe 2;
            ThemeManager.Unsubscribe 2]).
  - reflexivity.
  - cbn [In]. intros [H|[H|[H|[]]]]; discriminate.
Defined.

End ContractProofs.

(** * Further properties *)

(** ** The position interface of a rendered connection *)

Module ConnectionTrackingProofs.
Import RenderedConnection ConnectionTracking.
Local Open Scope list_scope.

Lemma othersEntries_app i a b :
  othersEntries i (a ++ b) = othersEntries i a ++ othersEntries i b.
Proof. apply List.filter_app. Qed.

Lemma othersEntries_splice_in i pos e arr :
  entry_id e = i ->
  othersEntries i (splice_in pos e arr) = othersEntries i arr.
Proof.
  intros He. unfold splice_in.
  rewrite <- (take_drop pos arr) at 3.
  rewrite !othersEntries_app. cbn [othersEntries List.filter].
  rewrite He, Nat.eqb_refl. reflexivity.
Qed.

Lemma othersEntries_remove_entry i arr :
  othersEntries i (remove_entry i arr) = othersEntries i arr.
Proof.
  induction arr as [|e arr IH]; [reflexivity|].
  cbn [remove_entry othersEntries List.filter].
  destruct (Nat.eqb (entry_id e) i) eqn:E; cbn [negb]; [reflexivity|].
  cbn [othersEntries List.filter]. rewrite E. cbn [negb]. now f_equal.
Qed.

Lemma entries_of_othersEntries i j arr :
  j <> i -> entries j (othersEntries i arr) = entries j arr.
Proof.
  intros Hne. unfold entries, othersEntries.
  induction arr as [|e arr IH]; [reflexivity|].
  cbn [List.filter].
  destruct (Nat.eqb (entry_id e) i) eqn:Ei; cbn [negb List.filter].
  - apply Nat.eqb_eq in Ei.
    assert (Nat.eqb (entry_id e) j = false) as ->
      by (apply Nat.eqb_neq; congruence).
    exact IH.
  - destruct (Nat.eqb (entry_id e) j); now rewrite IH.
Qed.

Section TrackingFacts.

Variable findPosition : list DBEntry -> t -> nat.

Local Abbreviation moveTo' := (moveTo findPosition).
Local Abbreviation setHidden' := (setHidden findPosition).
Local Abbreviation perform' := (perform findPosition).
Local Abbreviation performAll' := (performAll findPosition).

Lemma addConnection_others s :
  othersEntries (id (conn s)) (db_ (addConnection findPosition s))
  = othersEntries (id (conn s)) (db_ s).
Proof.
  unfold addConnection. cbn [db_]. now apply othersEntries_splice_in.
Qed.

Lemma removeConnection_others s :
  othersEntries (id (conn s)) (db_ (removeConnection_ s))
  = othersEntries (id (conn s)) (db_ s).
Proof.
  unfold removeConnection_. cbn [db_]. apply othersEntries_remove_entry.
Qed.

Lemma moveTo_id x y s : id (conn (moveTo' x y s)) = id (conn s).
Proof.
  destruct s as [[i ty b x0 y0 o inDB hid] db].
  unfold moveTo, addConnection, removeConnection_.
  destruct inDB, hid; reflexivity.
Qed.

Lemma setHidden_id h s : id (conn (setHidden' h s)) = id (conn s).
Proof.
  destruct s as [[i ty b x0 y0 o inDB hid] db].
  unfold setHidden, addConnection, removeConnection_.
  destruct h, inDB; reflexivity.
Qed.

Lemma perform_id s c : id (conn (perform' s c)) = id (conn s).
Proof.
  destruct c; cbn [perform]; unfold moveBy, moveToOffset;
    rewrite ?moveTo_id, ?setHidden_id; reflexivity.
Qed.

Lemma performAll_id cs s : id (conn (performAll' cs s)) = id (conn s).
Proof.
  revert s. induction cs as [|c cs IH]; intros s; [reflexivity|].
  cbn [performAll foldl]. fold (performAll' cs (perform' s c)).
  now rewrite IH, perform_id.
Qed.

Lemma moveTo_others x y s :
  othersEntries (id (conn s)) (db_ (moveTo' x y s))
  = othersEntries (id (conn s)) (db_ s).
Proof.
  unfold moveTo.
  set (s1 := if inDB_ (conn s) then removeConnection_ s else s).
  assert (H1 : id (conn s1) = id (conn s)
               /\ othersEntries (id (conn s)) (db_ s1)
                  = othersEntries (id (conn s)) (db_ s)).
  { subst s1. destruct (inDB_ (conn s));
      [split; [reflexivity|apply removeConnection_others]|now split]. }
  destruct H1 as [Hid H1].
  set (s2 := mkTracked (set_xy x y (conn s1)) (db_ s1)).
  destruct (negb (hidden_ (conn s2))); [|exact H1].
  rewrite <- H1. rewrite <- Hid.
  apply (addConnection_others s2).
Qed.

Lemma setHidden_others h s :
  othersEntries (id (conn s)) (db_ (setHidden' h s))
  = othersEntries (id (conn s)) (db_ s).
Proof.
  unfold setHidden.
  set (s1 := mkTracked (set_hidden_ h (conn s)) (db_ s)).
  destruct (h && inDB_ (conn s1)); [apply (removeConnection_others s1)|].
  destruct (negb h && negb (inDB_ (conn s1)));
    [apply (addConnection_others s1)|reflexivity].
Qed.

Lemma perform_others s c :
  othersEntries (id (conn s)) (db_ (perform' s c))
  = othersEntries (id (conn s)) (db_ s).
Proof.
  destruct c; cbn [perform]; unfold moveBy, moveToOffset;
    rewrite ?moveTo_others, ?setHidden_others; reflexivity.
Qed.

Lemma performAll_others cs s :
  othersEntries (id (conn s)) (db_ (performAll' cs s))
  = othersEntries (id (conn s)) (db_ s).
Proof.
  revert s. induction cs as [|c cs IH]; intros s; [reflexivity|].
  cbn [performAll foldl]. fold (performAll' cs (perform' s c)).
  rewrite <- (perform_id s c), IH, perform_id. apply perform_others.
Qed.

(** Whatever is called on a connection, and in whatever state, the
    entries of the other connections stay in the database, in their
    order. *)
Theorem position_calls_leave_other_entries cs s :
  othersEntries (id (conn s)) (db_ (performAll findPosition cs s))
  = othersEntries (id (conn s)) (db_ s)
  /\ (forall j, j <> id (conn s) ->
      entries j (db_ (performAll findPosition cs s)) = entries j (db_ s)).
Proof.
  split; [apply performAll_others|].
  intros j Hj.
  rewrite <- (entries_of_othersEntries (id (conn s)) j
                (db_ (performAll' cs s))) by exact Hj.
  rewrite performAll_others. now apply entries_of_othersEntries.
Qed.

Lemma perform_flagAgrees s c : flagAgrees s -> flagAgrees (perform' s c).
Proof.
  intros H. destruct c; cbn [perform]; unfold moveBy, moveToOffset.
  - now apply RenderedConnectionProofs.moveTo_flagAgrees.
  - now apply RenderedConnectionProofs.moveTo_flagAgrees.
  - now apply RenderedConnectionProofs.moveTo_flagAgrees.
  - exact H.
  - now apply RenderedConnectionProofs.setHidden_flagAgrees.
Qed.

Lemma performAll_flagAgrees cs s :
  flagAgrees s -> flagAgrees (performAll' cs s).
Proof.
  revert s. induction cs as [|c cs IH]; intros s H; [exact H|].
  apply IH, perform_flagAgrees, H.
Qed.

Lemma perform_flags s c :
  touchesDatabase c = true ->
  inDB_ (conn (perform' s c)) = negb (hidden_ (conn (perform' s c))).
Proof.
  intros Hc. destruct c; try discriminate; cbn [perform];
    unfold moveBy, moveToOffset.
  - apply (RenderedConnectionProofs.step_flags findPosition s (MoveTo _ _)).
  - apply (RenderedConnectionProofs.step_flags findPosition s (MoveTo _ _)).
  - apply (RenderedConnectionProofs.step_flags findPosition s (MoveTo _ _)).
  - apply (RenderedConnectionProofs.step_flags findPosition s
             (SetHidden hidden)).
Qed.

Lemma perform_keeps_flags s c :
  inDB_ (conn s) = negb (hidden_ (conn s)) ->
  inDB_ (conn (perform' s c)) = negb (hidden_ (conn (perform' s c))).
Proof.
  intros H. destruct (touchesDatabase c) eqn:Hc;
    [now apply perform_flags|].
  destruct c; try discriminate. exact H.
Qed.

Lemma performAll_keeps_flags cs s :
  inDB_ (conn s) = negb (hidden_ (conn s)) ->
  inDB_ (conn (performAll' cs s))
  = negb (hidden_ (conn (performAll' cs s))).
Proof.
  revert s. induction cs as [|c cs IH]; intros s H; [exact H|].
  apply IH, perform_keeps_flags, H.
Qed.

Lemma performAll_flags cs s :
  existsb touchesDatabase cs = true ->
  inDB_ (conn (performAll' cs s))
  = negb (hidden_ (conn (performAll' cs s))).
Proof.
  revert s. induction cs as [|c cs IH]; intros s H; [discriminate|].
  cbn [existsb] in H. cbn [performAll foldl].
  fold (performAll' cs (perform' s c)).
  destruct (touchesDatabase c) eqn:Hc.
  - apply performAll_keeps_flags, perform_flags, Hc.
  - apply IH. exact H.
Qed.

(** The tracking invariant under the whole position interface: a new
    connection on which [moveTo], [moveBy], [moveToOffset],
    [setOffsetInBlock] and [setHidden] are called in any order never has
    an entry filed under other coordinates than its current ones, and once
    one of the calls that go to the database has been made it is in the
    database if and only if it is not hidden. *)
Theorem position_calls_keep_tracking i source type db cs :
  present i db = false ->
  let s := performAll findPosition cs
             (RenderedConnection_new i source type db) in
  noStaleEntry s
  /\ (existsb touchesDatabase cs = true ->
      (present (id (conn s)) (db_ s) = true <-> hidden_ (conn s) = false)).
Proof.
  intros Hfresh s.
  assert (W : flagAgrees s).
  { apply performAll_flagAgrees.
    now apply RenderedConnectionProofs.new_flagAgrees. }
  split; [now apply RenderedConnectionProofs.flagAgrees_noStaleEntry|].
  intros Hc. rewrite (RenderedConnectionProofs.flagAgrees_present s W).
  subst s. rewrite (performAll_flags _ _ Hc).
  destruct (hidden_ _); cbn; split; congruence.
Qed.

Lemma moveTo_hidden x y s :
  hidden_ (conn s) = true -> inDB_ (conn s) = false ->
  db_ (moveTo' x y s) = db_ s
  /\ conn (moveTo' x y s) = set_xy x y (conn s).
Proof.
  intros Hh Hin. unfold moveTo. rewrite Hin.
  cbn [conn set_xy hidden_ db_]. rewrite Hh. cbn [negb conn db_].
  split; reflexivity.
Qed.

Lemma last_cons_default {A} (a : A) l d d' :
  List.last (a :: l) d = List.last (a :: l) d'.
Proof.
  revert a. induction l as [|b l IH]; intros a; [reflexivity|].
  change (List.last (a :: b :: l) d) with (List.last (b :: l) d).
  change (List.last (a :: b :: l) d') with (List.last (b :: l) d').
  apply IH.
Qed.

(** The coordinates after a list of moves. *)
Lemma moves_hidden (moves : list (float * float)) s :
  hidden_ (conn s) = true -> inDB_ (conn s) = false ->
  let s' := performAll' (map (fun p => CallMoveTo (fst p) (snd p)) moves) s in
  db_ s' = db_ s
  /\ hidden_ (conn s') = true /\ inDB_ (conn s') = false
  /\ (x_ (conn s'), y_ (conn s'))
     = List.last moves (x_ (conn s), y_ (conn s)).
Proof.
  revert s. induction moves as [|[x y] moves IH]; intros s Hh Hin.
  - cbn. auto.
  - destruct (moveTo_hidden x y s Hh Hin) as [Hdb Hc].
    assert (Hh1 : hidden_ (conn (moveTo' x y s)) = true)
      by (rewrite Hc; exact Hh).
    assert (Hin1 : inDB_ (conn (moveTo' x y s)) = false)
      by (rewrite Hc; exact Hin).
    destruct (IH (moveTo' x y s) Hh1 Hin1) as (H1 & H2 & H3 & H4).
    unfold performAll in *. cbn [map foldl perform fst snd] in *.
    rewrite Hdb in H1. repeat split; try assumption.
    etransitivity; [exact H4|].
    rewrite Hc. cbn [set_xy x_ y_]. clear.
    destruct moves as [|p moves]; [reflexivity|].
    change (List.last ((x, y) :: p :: moves) (x_ (conn s), y_ (conn s)))
      with (List.last (p :: moves) (x_ (conn s), y_ (conn s))).
    apply last_cons_default.
Qed.

(** Hiding takes the connection out of the database; while it is hidden,
    moves leave the database alone; unhiding files it once, under the
    coordinates of the last move. *)
Theorem hide_move_unhide s (moves : list (float * float)) :
  flagAgrees s ->
  let hidden := setHidden findPosition true s in
  let moved :=
    performAll findPosition
      (map (fun p => CallMoveTo (fst p) (snd p)) moves) hidden in
  let shown := setHidden findPosition false moved in
  entries (id (conn s)) (db_ hidden) = []
  /\ db_ moved = db_ hidden
  /\ (x_ (conn shown), y_ (conn shown))
     = List.last moves (x_ (conn s), y_ (conn s))
  /\ entries (id (conn s)) (db_ shown)
     = [mkDBEntry (id (conn s)) (x_ (conn shown)) (y_ (conn shown))].
Proof.
  intros W hidden moved shown.
  assert (Wh : flagAgrees hidden)
    by now apply RenderedConnectionProofs.setHidden_flagAgrees.
  assert (Fh : inDB_ (conn hidden) = negb (hidden_ (conn hidden)))
    by apply (RenderedConnectionProofs.step_flags findPosition s
                (SetHidden true)).
  assert (Hh : hidden_ (conn hidden) = true).
  { subst hidden. destruct s as [[i ty b x0 y0 o inDB hid] db].
    unfold setHidden, removeConnection_. destruct inDB; reflexivity. }
  assert (Hin : inDB_ (conn hidden) = false) by now rewrite Fh, Hh.
  assert (Hid : id (conn hidden) = id (conn s)) by apply setHidden_id.
  assert (Hxy : x_ (conn hidden) = x_ (conn s)
                /\ y_ (conn hidden) = y_ (conn s)).
  { subst hidden. destruct s as [[i ty b x0 y0 o inDB hid] db].
    unfold setHidden, removeConnection_. destruct inDB; split; reflexivity. }
  destruct (moves_hidden moves hidden Hh Hin) as (Hdb & Hmh & Hmin & Hlast).
  fold moved in Hdb, Hmh, Hmin, Hlast.
  assert (Wm : flagAgrees moved) by now apply performAll_flagAgrees.
  assert (Ws : flagAgrees shown)
    by now apply RenderedConnectionProofs.setHidden_flagAgrees.
  assert (Hsc : conn shown = set_inDB_ true (set_hidden_ false (conn moved))).
  { subst shown. unfold setHidden. cbn [conn set_hidden_ inDB_].
    rewrite Hmin. reflexivity. }
  split.
  { rewrite <- Hid. unfold flagAgrees in Wh. now rewrite Wh, Hin. }
  split; [exact Hdb|].
  assert (Hsxy : x_ (conn shown) = x_ (conn moved)
                 /\ y_ (conn shown) = y_ (conn moved))
    by (rewrite Hsc; split; reflexivity).
  destruct Hsxy as [Hsx Hsy]. destruct Hxy as [Hx Hy].
  split; [rewrite Hsx, Hsy, Hlast, Hx, Hy; reflexivity|].
  unfold flagAgrees in Ws.
  assert (Hsid : id (conn shown) = id (conn s)).
  { subst shown moved. now rewrite setHidden_id, performAll_id. }
  rewrite Hsid in Ws. rewrite Ws. rewrite Hsc at 1. cbn [inDB_ set_inDB_].
  unfold filed. now rewrite Hsid.
Qed.

(** [dispose] leaves no entry of the connection in the database, whatever
    the base class did to the connection first, and keeps the entries of
    the other connections. *)
Theorem dispose_leaves_no_entry superCalls s :
  flagAgrees s ->
  let s' := dispose findPosition superCalls s in
  entries (id (conn s)) (db_ s') = []
  /\ inDB_ (conn s') = false
  /\ othersEntries (id (conn s)) (db_ s')
     = othersEntries (id (conn s)) (db_ s).
Proof.
  intros W s'. subst s'. unfold dispose.
  set (s1 := performAll' superCalls s).
  assert (W1 : flagAgrees s1) by now apply performAll_flagAgrees.
  assert (Hid : id (conn s1) = id (conn s)) by apply performAll_id.
  assert (Ho : othersEntries (id (conn s)) (db_ s1)
               = othersEntries (id (conn s)) (db_ s))
    by apply performAll_others.
  destruct (inDB_ (conn s1)) eqn:Hin.
  - assert (W2 := RenderedConnectionProofs.removeConnection_flagAgrees s1 W1).
    unfold flagAgrees in W2.
    assert (Hid2 : id (conn (removeConnection_ s1)) = id (conn s))
      by exact Hid.
    rewrite Hid2 in W2. split; [exact W2|]. split; [reflexivity|].
    rewrite <- Ho, <- Hid. apply removeConnection_others.
  - unfold flagAgrees in W1. rewrite Hid, Hin in W1.
    split; [exact W1|]. split; [exact Hin|exact Ho].
Qed.

End TrackingFacts.

(** Offset (2,3) in a block at (10,20), then a move by (1,1): the
    connection is filed once, at (13,24). *)
Lemma position_calls_keep_tracking_witness :
  present 7 [mkDBEntry 3 1 1] = false
  /\ noStaleEntry
       (performAll Examples.atFront
          [CallSetOffsetInBlock 2 3; CallMoveToOffset (mkCoordinate 10 20);
           CallMoveBy 1 1]
          (RenderedConnection_new 7 Examples.parentBlock0 NEXT_STATEMENT
             [mkDBEntry 3 1 1]))
  /\ db_ (performAll Examples.atFront
            [CallSetOffsetInBlock 2 3; CallMoveToOffset (mkCoordinate 10 20);
             CallMoveBy 1 1]
            (RenderedConnection_new 7 Examples.parentBlock0 NEXT_STATEMENT
               [mkDBEntry 3 1 1]))
     = [mkDBEntry 7 13 24; mkDBEntry 3 1 1].
Proof.
  split; [reflexivity|]. split; [|vm_compute; reflexivity].
  apply (position_calls_keep_tracking Examples.atFront 7 Examples.parentBlock0 NEXT_STATEMENT
           [mkDBEntry 3 1 1]
           [CallSetOffsetInBlock 2 3; CallMoveToOffset (mkCoordinate 10 20);
            CallMoveBy 1 1]).
  reflexivity.
Defined.


(** A new connection next to the entry of connection 3, hidden, moved
    twice and shown again: filed once, at the last position. *)
Lemma hide_move_unhide_witness :
  flagAgrees
    (RenderedConnection_new 7 Examples.parentBlock0 NEXT_STATEMENT
       [mkDBEntry 3 1 1])
  /\ db_ (setHidden Examples.atFront false
            (performAll Examples.atFront
               (map (fun p => CallMoveTo (fst p) (snd p))
                  [(10%float, 20%float); (30%float, 40%float)])
               (setHidden Examples.atFront true
                  (RenderedConnection_new 7 Examples.parentBlock0
                     NEXT_STATEMENT [mkDBEntry 3 1 1]))))
     = [mkDBEntry 7 30 40; mkDBEntry 3 1 1]
  /\ entries 7
       (db_ (setHidden Examples.atFront false
               (performAll Examples.atFront
                  (map (fun p => CallMoveTo (fst p) (snd p))
                     [(10%float, 20%float); (30%float, 40%float)])
                  (setHidden Examples.atFront true
                     (RenderedConnection_new 7 Examples.parentBlock0
                        NEXT_STATEMENT [mkDBEntry 3 1 1])))))
     = [mkDBEntry 7 30 40].
Proof.
  assert (W : flagAgrees
                (RenderedConnection_new 7 Examples.parentBlock0 NEXT_STATEMENT
                   [mkDBEntry 3 1 1])) by reflexivity.
  split; [exact W|]. split; [vm_compute; reflexivity|].
  destruct (hide_move_unhide Examples.atFront _
              [(10%float, 20%float); (30%float, 40%float)] W)
    as (_ & _ & _ & H).
  exact H.
Defined.

(** A connection filed at (10,20) is disposed of while the base class
    moves it once more: no entry is left. *)
Lemma dispose_leaves_no_entry_witness :
  flagAgrees
    (moveTo Examples.atFront 10 20
       (RenderedConnection_new 7 Examples.parentBlock0 NEXT_STATEMENT
          [mkDBEntry 3 1 1]))
  /\ db_ (dispose Examples.atFront [CallMoveBy 5 5]
            (moveTo Examples.atFront 10 20
               (RenderedConnection_new 7 Examples.parentBlock0 NEXT_STATEMENT
                  [mkDBEntry 3 1 1])))
     = [mkDBEntry 3 1 1]
  /\ entries 7
       (db_ (dispose Examples.atFront [CallMoveBy 5 5]
               (moveTo Examples.atFront 10 20
                  (RenderedConnection_new 7 Examples.parentBlock0
                     NEXT_STATEMENT [mkDBEntry 3 1 1]))))
     = [].
Proof.
  assert (W : flagAgrees
                (moveTo Examples.atFront 10 20
                   (RenderedConnection_new 7 Examples.parentBlock0
                      NEXT_STATEMENT [mkDBEntry 3 1 1]))) by reflexivity.
  split; [exact W|]. split; [vm_compute; reflexivity|].
  destruct (dispose_leaves_no_entry Examples.atFront [CallMoveBy 5 5] _ W)
    as (H & _).
  exact H.
Defined.

End ConnectionTrackingProofs.

(** ** Calls made on connecting, and the radius test *)

Module ConnectionCallsProofs.
Import RenderedConnection.
Local Open Scope list_scope.

(** [connect_] refreshes the disabled state of each rendered side, parent
    first, and renders nothing unless both sides are rendered. *)
Theorem connect_unrendered_side this childConnection :
  updateDisabledCalls (calls (connect_ this childConnection))
  = (if rendered (getSourceBlock this)
     then [block_id (getSourceBlock this)] else [])
    ++ (if rendered (getSourceBlock childConnection)
        then [block_id (getSourceBlock childConnection)] else [])
  /\ (rendered (getSourceBlock this)
      && rendered (getSourceBlock childConnection) = false ->
      renderCalls (calls (connect_ this childConnection)) = []).
Proof.
  unfold connect_.
  destruct (rendered (getSourceBlock this)),
    (rendered (getSourceBlock childConnection)); cbn [andb when];
    (split; [|try discriminate; reflexivity]);
    try reflexivity.
  destruct (Z.eqb (type this) NEXT_STATEMENT
            || Z.eqb (type this) PREVIOUS_STATEMENT); reflexivity.
Qed.

(** No number is greater than NaN. *)
Lemma gt_nan d : gt d nan = false.
Proof.
  unfold gt. rewrite FloatAxioms.ltb_spec.
  change (Prim2SF nan) with S754_nan. reflexivity.
Qed.

(** When [maxRadius] is left out (it then compares as NaN),
    [isConnectionAllowed] never refuses for distance: its answer is the
    base class's. *)
Theorem isConnectionAllowed_without_radius super this candidate :
  isConnectionAllowed super this candidate nan = super this candidate.
Proof. unfold isConnectionAllowed. now rewrite gt_nan. Qed.

End ConnectionCallsProofs.

(** ** bumpAwayFrom_ *)

Module BumpProofs.
Import RenderedConnection Bump.
Local Open Scope list_scope.

(** [bumpAwayFrom_] moves at most one block, and only a movable one: the
    connection's own root block, or the other connection's root block when
    its own cannot move.  It moves nothing while a drag is in progress or
    when its own root block is in a flyout, and it selects the block for
    the move exactly when the block is not the selected one, unselecting it
    afterwards. *)
Theorem bumpAwayFrom_moves_a_movable_root SNAP_RADIUS isDragging this
  staticConnection ownRoot staticRoot selected jitterX jitterY jitterRTL :
  let cs :=
    bumpAwayFrom_ SNAP_RADIUS isDragging this staticConnection ownRoot
      staticRoot selected jitterX jitterY jitterRTL in
  let target := if isMovable ownRoot then ownRoot else staticRoot in
  (isDragging || isInFlyout ownRoot
   || negb (isMovable ownRoot || isMovable staticRoot) = true -> cs = [])
  /\ (isDragging || isInFlyout ownRoot
      || negb (isMovable ownRoot || isMovable staticRoot) = false ->
      isMovable target = true
      /\ movedBlocks cs = [root_id target]
      /\ exists dx dy,
           cs = if bool_decide (selected = Some (root_id target))
                then [moveBy (root_id target) dx dy]
                else [addSelect (root_id target);
                      moveBy (root_id target) dx dy;
                      removeSelect (root_id target)]).
Proof.
  cbn zeta. unfold bumpAwayFrom_.
  destruct isDragging, (isInFlyout ownRoot), (isMovable ownRoot) eqn:Ho,
    (isMovable staticRoot) eqn:Hs; cbn [orb negb andb];
    (split; [try discriminate; try reflexivity|try discriminate]).
  all: intros _; rewrite ?Ho, ?Hs; split; [reflexivity|].
  all: destruct (bool_decide _); split;
    [reflexivity|eexists _, _; reflexivity
    |reflexivity|eexists _, _; reflexivity].
Qed.

End BumpProofs.

(** ** Blockly.ThemeManager *)

Module ThemeManagerProofs.
Import ThemeComponents.
Local Open Scope string_scope.
Local Open Scope list_scope.

Lemma indexOf_first arr w :
  In w arr ->
  exists before after,
    arr = before ++ w :: after /\ ~ In w before
    /\ ThemeManager.indexOf arr w = Z.of_nat (length before).
Proof.
  induction arr as [|a arr IH]; intros H; [destruct H|].
  cbn [ThemeManager.indexOf]. destruct (Nat.eqb a w) eqn:E.
  - apply Nat.eqb_eq in E. subst a. exists [], arr. auto.
  - apply Nat.eqb_neq in E. destruct H as [H|H]; [congruence|].
    destruct (IH H) as (before & after & -> & Hn & Hi).
    exists (a :: before), after. split; [reflexivity|].
    split; [intros [?|?]; [congruence|auto]|].
    rewrite Hi. destruct (Z.ltb_spec (Z.of_nat (length before)) 0); [lia|].
    cbn [length]. lia.
Qed.

Lemma splice_out_middle (before after : list nat) w :
  ThemeManager.splice_out (length before) (before ++ w :: after)
  = before ++ after.
Proof.
  unfold ThemeManager.splice_out.
  rewrite take_app_length.
  change (S (length before)) with (1 + length before)%nat.
  rewrite Nat.add_comm, <- drop_drop, drop_app_length. reflexivity.
Qed.

Lemma indexOf_split before after w :
  ~ In w before ->
  ThemeManager.indexOf (before ++ w :: after) w = Z.of_nat (length before).
Proof.
  induction before as [|a before IH]; intros H; cbn [app ThemeManager.indexOf].
  - now rewrite Nat.eqb_refl.
  - destruct (Nat.eqb_spec a w) as [->|_]; [exfalso; apply H; now left|].
    rewrite IH by (intros Hin; apply H; now right).
    destruct (Z.ltb_spec (Z.of_nat (length before)) 0); [lia|].
    cbn [length]. lia.
Qed.

Lemma unsubscribeWorkspace_at theme before after w :
  ~ In w before ->
  ThemeManager.unsubscribeWorkspace w (ThemeManager.mk theme (before ++ w :: after))
  = Normal (ThemeManager.mk theme (before ++ after)).
Proof.
  intros H. unfold ThemeManager.unsubscribeWorkspace.
  cbn [ThemeManager.subscribedWorkspaces_ ThemeManager.theme_].
  rewrite (indexOf_split _ _ _ H).
  destruct (Z.ltb_spec (Z.of_nat (length before)) 0); [lia|].
  now rewrite Nat2Z.id, splice_out_middle.
Qed.

(** [unsubscribeWorkspace] of a subscribed workspace removes its first
    occurrence and nothing else: the workspaces before and after it keep
    their places, and a workspace subscribed twice stays subscribed
    once. *)
Theorem unsubscribeWorkspace_removes_first workspace tm :
  In workspace (ThemeManager.subscribedWorkspaces_ tm) ->
  exists before after,
    ThemeManager.subscribedWorkspaces_ tm = before ++ workspace :: after
    /\ ~ In workspace before
    /\ ThemeManager.unsubscribeWorkspace workspace tm
       = Normal (ThemeManager.mk (ThemeManager.theme_ tm) (before ++ after)).
Proof.
  intros H. destruct (indexOf_first _ _ H) as (before & after & E & Hn & _).
  exists before, after. split; [exact E|]. split; [exact Hn|].
  destruct tm as [theme subs]. cbn [ThemeManager.subscribedWorkspaces_] in E.
  subst subs. now apply unsubscribeWorkspace_at.
Qed.

Lemma unsubscribeWorkspace_removes_first_witness :
  In 2%nat [1; 2; 3; 2]%nat
  /\ exists before after,
       [1; 2; 3; 2]%nat = before ++ 2%nat :: after
       /\ ~ In 2%nat before
       /\ ThemeManager.unsubscribeWorkspace 2 (ThemeManager.mk 0 [1; 2; 3; 2]%nat)
          = Normal (ThemeManager.mk 0 (before ++ after)).
Proof.
  assert (H : In 2%nat [1; 2; 3; 2]%nat) by (right; left; reflexivity).
  split; [exact H|].
  exact (unsubscribeWorkspace_removes_first 2
           (ThemeManager.mk 0 [1; 2; 3; 2]%nat) H).
Defined.

Lemma occurrences_app w a b :
  occurrences w (a ++ b) = (occurrences w a + occurrences w b)%nat.
Proof. unfold occurrences. now rewrite List.filter_app, length_app. Qed.

Lemma occurrences_absent w arr : ~ In w arr -> occurrences w arr = 0%nat.
Proof.
  unfold occurrences. induction arr as [|a arr IH]; intros H; [reflexivity|].
  cbn [List.filter]. destruct (Nat.eqb w a) eqn:E.
  - apply Nat.eqb_eq in E. subst. exfalso. apply H. now left.
  - apply IH. intros Hin. apply H. now right.
Qed.

Lemma occurrences_positive w arr :
  In w arr -> (0 < occurrences w arr)%nat.
Proof.
  unfold occurrences. induction arr as [|a arr IH]; intros H; [destruct H|].
  cbn [List.filter]. destruct (Nat.eqb w a) eqn:E; [cbn [length]; lia|].
  apply Nat.eqb_neq in E. destruct H as [H|H]; [congruence|auto].
Qed.

Lemma step_counts op tm tm' w :
  ThemeManager.step op tm = Normal tm' ->
  (occurrences w (ThemeManager.subscribedWorkspaces_ tm')
   + unsubscribes w [op]
   = occurrences w (ThemeManager.subscribedWorkspaces_ tm)
     + subscribes w [op])%nat.
Proof.
  destruct op as [v|v]; cbn [ThemeManager.step]; intros H.
  - injection H as <-. cbn [ThemeManager.subscribedWorkspaces_].
    rewrite occurrences_app. unfold subscribes, unsubscribes, occurrences.
    cbn [List.filter]. rewrite (Nat.eqb_sym w v).
    destruct (Nat.eqb v w); cbn [length]; lia.
  - destruct (in_dec Nat.eq_dec v (ThemeManager.subscribedWorkspaces_ tm))
      as [Hin|Hout].
    + destruct (indexOf_first _ _ Hin) as (before & after & E & Hn & _).
      destruct tm as [theme subs].
      cbn [ThemeManager.subscribedWorkspaces_] in E. subst subs.
      rewrite (unsubscribeWorkspace_at theme before after v Hn) in H.
      injection H as <-.
      cbn [ThemeManager.subscribedWorkspaces_].
      rewrite !occurrences_app. unfold subscribes, unsubscribes.
      cbn [List.filter]. unfold occurrences at 4. cbn [List.filter].
      rewrite (Nat.eqb_sym w v).
      destruct (Nat.eqb v w); cbn [length];
        fold (occurrences w after); lia.
    + rewrite (ContractProofs.unsubscribe_absent tm v Hout) in H.
      discriminate.
Qed.

Lemma subscribes_cons w op ops :
  subscribes w (op :: ops) = (subscribes w [op] + subscribes w ops)%nat.
Proof.
  unfold subscribes. cbn [List.filter].
  destruct op as [v|v]; [destruct (Nat.eqb v w)|]; reflexivity.
Qed.

Lemma unsubscribes_cons w op ops :
  unsubscribes w (op :: ops)
  = (unsubscribes w [op] + unsubscribes w ops)%nat.
Proof.
  unfold unsubscribes. cbn [List.filter].
  destruct op as [v|v]; [|destruct (Nat.eqb v w)]; reflexivity.
Qed.

Lemma run_counts ops tm tm' w :
  ThemeManager.run ops tm = Normal tm' ->
  (occurrences w (ThemeManager.subscribedWorkspaces_ tm')
   + unsubscribes w ops
   = occurrences w (ThemeManager.subscribedWorkspaces_ tm)
     + subscribes w ops)%nat.
Proof.
  revert tm. induction ops as [|op ops IH]; intros tm H.
  - injection H as <-. reflexivity.
  - cbn [ThemeManager.run] in H.
    destruct (ThemeManager.step op tm) as [tm1|] eqn:Hs; [|discriminate].
    pose proof (step_counts op tm tm1 w Hs).
    pose proof (IH tm1 H).
    rewrite subscribes_cons, unsubscribes_cons. lia.
Qed.

(** Subscriptions are counted: after a sequence of calls that did not
    throw on a new manager, a workspace is in the list as many times as
    it was subscribed minus the times it was unsubscribed, and one more
    [unsubscribeWorkspace] throws exactly when that number is zero. *)
Theorem subscriptions_are_counted theme ops tm workspace :
  ThemeManager.run ops (ThemeManager.ThemeManager_new theme) = Normal tm ->
  (occurrences workspace (ThemeManager.subscribedWorkspaces_ tm)
   + unsubscribes workspace ops
   = subscribes workspace ops)%nat
  /\ (subscribes workspace ops = unsubscribes workspace ops <->
      ThemeManager.unsubscribeWorkspace workspace tm
      = Throw "Cannot unsubscribe a workspace that hasn't been subscribed.").
Proof.
  intros H. pose proof (run_counts ops _ tm workspace H) as C.
  cbn [ThemeManager.ThemeManager_new ThemeManager.subscribedWorkspaces_
       occurrences List.filter length] in C.
  split; [lia|].
  destruct (in_dec Nat.eq_dec workspace
              (ThemeManager.subscribedWorkspaces_ tm)) as [Hin|Hout].
  - pose proof (occurrences_positive _ _ Hin).
    destruct (indexOf_first _ _ Hin) as (b & a & E & Hn & _).
    destruct tm as [theme' subs].
    cbn [ThemeManager.subscribedWorkspaces_] in E. subst subs.
    rewrite (unsubscribeWorkspace_at theme' b a workspace Hn).
    split; [lia|discriminate].
  - pose proof (occurrences_absent _ _ Hout).
    split; [intros _; now apply ContractProofs.unsubscribe_absent|lia].
Qed.

(** Workspace 5 subscribed twice and unsubscribed once is still there
    once. *)
Lemma subscriptions_are_counted_witness :
  ThemeManager.run
    [ThemeManager.Subscribe 5; ThemeManager.Subscribe 5;
     ThemeManager.Unsubscribe 5]
    (ThemeManager.ThemeManager_new 0)
  = Normal (ThemeManager.mk 0 [5%nat])
  /\ (occurrences 5 [5%nat] + 1 = 2)%nat.
Proof.
  split; [reflexivity|].
  apply (subscriptions_are_counted 0
           [ThemeManager.Subscribe 5; ThemeManager.Subscribe 5;
            ThemeManager.Unsubscribe 5]
           (ThemeManager.mk 0 [5%nat]) 5 eq_refl).
Defined.

End ThemeManagerProofs.

Module ThemeComponentsProofs.
Import ThemeComponents.
Local Open Scope string_scope.
Local Open Scope list_scope.

Lemma untilFalsy_all ks : ~ In "" ks -> untilFalsy ks = ks.
Proof.
  induction ks as [|k ks IH]; intros H; [reflexivity|].
  cbn [untilFalsy]. destruct (String.eqb_spec k "") as [->|_].
  - exfalso. apply H. now left.
  - f_equal. apply IH. intros Hin. apply H. now right.
Qed.

Lemma untilFalsy_stops before after :
  ~ In "" before -> untilFalsy (before ++ "" :: after) = before.
Proof.
  induction before as [|k ks IH]; intros H; [reflexivity|].
  cbn [untilFalsy app]. destruct (String.eqb_spec k "") as [->|_].
  - exfalso. apply H. now left.
  - f_equal. apply IH. intros Hin. apply H. now right.
Qed.

Lemma unsubscribe_name_lookup e db name k :
  unsubscribe_name e db name !! k
  = if decide (k = name) then (db !! k) ≫= withoutElement e else db !! k.
Proof.
  unfold unsubscribe_name. destruct (decide (k = name)) as [->|Hne].
  - destruct (db !! name) as [l|] eqn:E; [|now rewrite E].
    cbn [mbind option_bind]. unfold withoutElement.
    destruct (List.filter _ l) as [|c l'].
    + apply lookup_delete_eq.
    + apply lookup_insert_eq.
  - destruct (db !! name) as [l|] eqn:E; [|reflexivity].
    destruct (List.filter _ l) as [|c l'].
    + now apply lookup_delete_ne.
    + now apply lookup_insert_ne.
Qed.

Lemma unsubscribe_names_lookup e ks : forall db k,
  NoDup ks ->
  foldl (unsubscribe_name e) db ks !! k
  = if decide (k ∈ ks) then (db !! k) ≫= withoutElement e else db !! k.
Proof.
  induction ks as [|name ks IH]; intros db k Hnd.
  - cbn [foldl]. destruct (decide (k ∈ [])) as [Hin|_]; [|reflexivity].
    now apply elem_of_nil in Hin.
  - inversion Hnd as [|? ? Hnotin Hnd']; subst. cbn [foldl].
    rewrite (IH _ _ Hnd'), unsubscribe_name_lookup.
    destruct (decide (k = name)) as [->|Hne].
    + destruct (decide (name ∈ ks)) as [Hin|_].
      * exfalso. apply Hnotin. now apply list_elem_of_In.
      * destruct (decide (name ∈ name :: ks)) as [_|Hout];
          [reflexivity|exfalso; apply Hout; now left].
    + destruct (decide (k ∈ ks)) as [Hin|Hout];
        destruct (decide (k ∈ name :: ks)) as [Hin'|Hout'];
        try reflexivity.
      * exfalso. apply Hout'. now right.
      * exfalso. apply elem_of_cons in Hin' as [->|?];
          [now apply Hne|now apply Hout].
Qed.

Lemma keys_no_empty keys db :
  keysOf keys -> noEmptyName db -> ~ In "" (keys db).
Proof.
  intros Hk Hn Hin. apply (Hk db) in Hin. unfold noEmptyName in Hn.
  rewrite Hn in Hin. now destruct Hin.
Qed.

Section Registry.
Variable getComponentStyle : nat -> string -> option string.
Variable keys : gmap string (list Component) -> list string.
Hypothesis keys_ok : keysOf keys.

Lemma unsubscribe_lookup e tm k :
  noEmptyName (componentDB_ tm) ->
  componentDB_ (unsubscribe keys (Some e) tm) !! k
  = (componentDB_ tm !! k) ≫= withoutElement e.
Proof.
  intros Hn. cbn [unsubscribe componentDB_].
  rewrite (untilFalsy_all _ (keys_no_empty _ _ keys_ok Hn)).
  rewrite unsubscribe_names_lookup by apply keys_ok.
  destruct (decide (k ∈ keys (componentDB_ tm))) as [_|Hout];
    [reflexivity|].
  destruct (componentDB_ tm !! k) eqn:E; [|reflexivity].
  exfalso. apply Hout. apply list_elem_of_In, keys_ok. rewrite E.
  now eexists.
Qed.

End Registry.

Lemma withoutElement_spec e l l' :
  withoutElement e l = Some l' ->
  l' = List.filter (fun c => negb (Nat.eqb (element c) e)) l /\ l' <> [].
Proof.
  unfold withoutElement. destruct (List.filter _ l); [discriminate|].
  intros [= <-]. split; [reflexivity|discriminate].
Qed.

(** [unsubscribe(element)] removes every component of the element, under
    every name, and nothing else: the other components keep their name
    and order, and a name left without components is deleted from the
    map.  A null element changes nothing. *)
Theorem unsubscribe_removes_every_reference
  (keys : gmap string (list Component) -> list string) e tm :
  keysOf keys ->
  noEmptyName (componentDB_ tm) ->
  unsubscribe keys None tm = tm
  /\ forall k,
       match componentDB_ (unsubscribe keys (Some e) tm) !! k with
       | Some l' =>
           exists l, componentDB_ tm !! k = Some l
             /\ l' = List.filter (fun c => negb (Nat.eqb (element c) e)) l
             /\ l' <> []
             /\ forall c, In c l' -> element c <> e
       | None =>
           forall l c, componentDB_ tm !! k = Some l -> In c l ->
                       element c = e
       end.
Proof.
  intros Hk Hn. split; [reflexivity|]. intros k.
  rewrite (unsubscribe_lookup keys Hk e tm k Hn).
  destruct (componentDB_ tm !! k) as [l|]; cbn [mbind option_bind].
  - destruct (withoutElement e l) as [l'|] eqn:E.
    + apply withoutElement_spec in E as [-> Hne]. exists l.
      repeat split; [exact Hne|].
      intros c Hc. apply List.filter_In in Hc as [_ Hc].
      apply negb_true_iff, Nat.eqb_neq in Hc. exact Hc.
    + intros l0 c [= <-] Hc. unfold withoutElement in E.
      destruct (List.filter _ l) as [|c' l'] eqn:F; [|discriminate].
      destruct (Nat.eq_dec (element c) e) as [?|Hne]; [assumption|].
      exfalso. assert (Hin : In c (List.filter
                 (fun c => negb (Nat.eqb (element c) e)) l)).
      { apply List.filter_In. split; [exact Hc|].
        now apply negb_true_iff, Nat.eqb_neq. }
      rewrite F in Hin. destruct Hin.
  - intros l c [=].
Qed.





(** With the empty name in the key order, [unsubscribe] stops there: the
    components registered under the names after it are left in the map,
    also those of the element being unsubscribed. *)
Theorem unsubscribe_stops_at_empty_name
  (keys : gmap string (list Component) -> list string)
  e tm before after k :
  keys (componentDB_ tm) = before ++ "" :: after ->
  NoDup (keys (componentDB_ tm)) ->
  ~ In "" before ->
  In k ("" :: after) ->
  componentDB_ (unsubscribe keys (Some e) tm) !! k = componentDB_ tm !! k.
Proof.
  intros E Hnd Hb Hin. cbn [unsubscribe componentDB_].
  rewrite E, (untilFalsy_stops _ _ Hb). rewrite E in Hnd.
  apply NoDup_app in Hnd as (Hnb & Hdis & _).
  rewrite unsubscribe_names_lookup by exact Hnb.
  destruct (decide (k ∈ before)) as [Hk|_]; [|reflexivity].
  exfalso. apply (Hdis k Hk). now apply list_elem_of_In.
Qed.


Lemma domKeys_ok : keysOf domKeys.
Proof.
  intros m. split; [apply NoDup_fst_map_to_list|].
  intros k. unfold domKeys. rewrite <- list_elem_of_In, list_elem_of_fmap.
  split.
  - intros [[k' l] [-> H]]. apply elem_of_map_to_list in H.
    cbn [fst]. rewrite H. now eexists.
  - intros [l H]. exists (k, l). split; [reflexivity|].
    now apply elem_of_map_to_list.
Qed.

(** Element 7 is the only toolbox component of the sample manager, so
    unsubscribing it deletes the name. *)
Lemma unsubscribe_removes_every_reference_witness :
  keysOf domKeys
  /\ noEmptyName (componentDB_ sampleManager)
  /\ componentDB_ (unsubscribe domKeys (Some 7%nat) sampleManager) !! "toolbox"
     = None
  /\ forall l c, componentDB_ sampleManager !! "toolbox" = Some l ->
                 In c l -> element c = 7%nat.
Proof.
  split; [exact domKeys_ok|]. split; [reflexivity|].
  split; [vm_compute; reflexivity|].
  exact (proj2 (unsubscribe_removes_every_reference domKeys 7 sampleManager
                  domKeys_ok eq_refl) "toolbox").
Defined.





(** With the names toolbox, empty name, flyout in that order,
    unsubscribing element 7 leaves its flyout component registered. *)
Lemma unsubscribe_stops_at_empty_name_witness :
  insertionKeys (componentDB_ emptyNameManager)
  = ["toolbox"] ++ "" :: ["flyout"]
  /\ NoDup (insertionKeys (componentDB_ emptyNameManager))
  /\ ~ In "" ["toolbox"]
  /\ In "flyout" ["" ; "flyout"]
  /\ componentDB_ (unsubscribe insertionKeys (Some 7%nat) emptyNameManager)
       !! "flyout"
     = componentDB_ emptyNameManager !! "flyout".
Proof.
  assert (Hnd : NoDup (insertionKeys (componentDB_ emptyNameManager))).
  { apply (bool_decide_unpack _). vm_compute. exact I. }
  assert (Hb : ~ In "" ["toolbox"]) by (intros [H|[]]; discriminate).
  assert (Hin : In "flyout" ["" ; "flyout"]) by (right; left; reflexivity).
  split; [reflexivity|]. split; [exact Hnd|]. split; [exact Hb|].
  split; [exact Hin|].
  exact (unsubscribe_stops_at_empty_name insertionKeys 7 emptyNameManager
           ["toolbox"] ["flyout"] "flyout" eq_refl Hnd Hb Hin).
Defined.

Section Refresh.
Variable getComponentStyle : nat -> string -> option string.






End Refresh.



End ThemeComponentsProofs.

(** ** Blockly.geras.PathObject: sequences of calls *)

Module GerasCallsProofs.
Import Geras GerasCalls.
Local Open Scope string_scope.
Local Open Scope list_scope.

Lemma setAttribute_commute n1 n2 v1 v2 e :
  n1 <> n2 ->
  setAttribute n1 v1 (setAttribute n2 v2 e)
  = setAttribute n2 v2 (setAttribute n1 v1 e).
Proof.
  intros H. unfold setAttribute. cbn [tagName attributes]. f_equal.
  now apply insert_insert_ne.
Qed.

Lemma setAttribute_again name v w e :
  setAttribute name v (setAttribute name w e) = setAttribute name v e.
Proof.
  unfold setAttribute. cbn [tagName attributes]. now rewrite insert_insert_eq.
Qed.

Lemma setPaths_flipRTL m h po :
  setPaths m h (flipRTL po) = flipRTL (setPaths m h po).
Proof.
  unfold setPaths, flipRTL. cbn [svgPath svgPathDark svgPathLight].
  f_equal; apply setAttribute_commute; discriminate.
Qed.

Lemma setPaths_setPaths m h m' h' po :
  setPaths m h (setPaths m' h' po) = setPaths m h po.
Proof.
  unfold setPaths. cbn [svgPath svgPathDark svgPathLight].
  now rewrite !setAttribute_again.
Qed.

Lemma flipRTL_flipRTL po : flipRTL (flipRTL po) = flipRTL po.
Proof.
  unfold flipRTL. cbn [svgPath svgPathDark svgPathLight].
  now rewrite !setAttribute_again.
Qed.

Lemma lastPaths_snoc ops op :
  lastPaths (ops ++ [op])
  = match op with
    | SetPaths m h => Some (m, h)
    | FlipRTL => lastPaths ops
    end.
Proof.
  induction ops as [|o ops IH]; [destruct op; reflexivity|].
  cbn [app lastPaths]. rewrite IH. destruct op; [reflexivity|].
  reflexivity.
Qed.

Lemma flipped_snoc ops op :
  flipped (ops ++ [op])
  = flipped ops || match op with FlipRTL => true | _ => false end.
Proof.
  unfold flipped. rewrite existsb_app. cbn [existsb].
  now rewrite orb_false_r.
Qed.

(** The state after any sequence of [setPaths] and [flipRTL] calls only
    depends on the arguments of the last [setPaths] and on whether
    [flipRTL] was called at all: it is the state after that one
    [setPaths] (if any) followed by one [flipRTL] (if any).  So the two
    calls commute, the last path data wins, and the dark and the primary
    path always carry the same data. *)
Theorem calls_normal_form ops po :
  run ops po
  = (if flipped ops then flipRTL else id)
      (match lastPaths ops with
       | Some (mainPath, highlightPath) => setPaths mainPath highlightPath po
       | None => po
       end)
  /\ (forall mainPath highlightPath,
        lastPaths ops = Some (mainPath, highlightPath) ->
        getAttribute "d" (svgPath (run ops po)) = Some mainPath
        /\ getAttribute "d" (svgPathDark (run ops po)) = Some mainPath
        /\ getAttribute "d" (svgPathLight (run ops po)) = Some highlightPath).
Proof.
  assert (NF : run ops po
    = (if flipped ops then flipRTL else id)
      (match lastPaths ops with
       | Some (m, h) => setPaths m h po
       | None => po
       end)).
  { induction ops as [|op ops IH] using rev_ind; [reflexivity|].
    unfold run in *. rewrite foldl_app. cbn [foldl]. rewrite IH.
    rewrite lastPaths_snoc, flipped_snoc.
    destruct op as [m h|]; cbn [step].
    - rewrite orb_false_r.
      destruct (flipped ops), (lastPaths ops) as [[m' h']|]; unfold id;
        rewrite ?setPaths_flipRTL, ?setPaths_setPaths; reflexivity.
    - rewrite orb_true_r.
      destruct (flipped ops); unfold id; rewrite ?flipRTL_flipRTL;
        reflexivity. }
  split; [exact NF|].
  intros m h E. rewrite NF, E.
  destruct (flipped ops); unfold id, flipRTL, setPaths;
    cbn [svgPath svgPathDark svgPathLight];
    repeat split;
    rewrite ?(GerasProofs.getAttribute_setAttribute_ne "transform" "d")
      by discriminate;
    apply GerasProofs.getAttribute_setAttribute.
Qed.

End GerasCallsProofs.

(** ** Blockly.utils.aria *)

Module AriaProofs.
Import Aria.
Local Open Scope string_scope.
Local Open Scope list_scope.

Lemma getRole_removeRole element : getRole (removeRole element) = None.
Proof.
  unfold getRole, removeRole, getAttribute, removeAttribute, Element in *.
  now rewrite lookup_delete_eq.
Qed.

(** The role round trip: after [setRole] with a non-empty role name
    [getRole] gives that name; after [setRole] with the empty string or
    null, and after [removeRole], it gives null.  [getRole] never gives
    the empty string. *)
Theorem getRole_setRole element roleName :
  getRole (setRole element roleName)
  = (if falsy roleName then None else roleName)
  /\ getRole (removeRole element) = None
  /\ getRole element <> Some "".
Proof.
  split; [|split; [apply getRole_removeRole|]].
  - destruct roleName as [name|]; cbn [setRole]; [|apply getRole_removeRole].
    destruct (falsy (Some name)) eqn:F; [apply getRole_removeRole|].
    unfold getRole, setAttribute, getAttribute, Element in *.
    now rewrite lookup_insert_eq, F.
  - unfold getRole. destruct (getAttribute ROLE_ATTRIBUTE_ element) as [s|];
      [|discriminate].
    cbn [falsy]. destruct (String.eqb_spec s ""); [discriminate|congruence].
Qed.

Lemma prefix_injective s1 s2 :
  getAriaAttributeName_ s1 = getAriaAttributeName_ s2 -> s1 = s2.
Proof.
  unfold getAriaAttributeName_, ARIA_PREFIX_. intros H.
  cbv [String.append] in H. congruence.
Qed.

Lemma prefix_not_role s : getAriaAttributeName_ s <> ROLE_ATTRIBUTE_.
Proof.
  unfold getAriaAttributeName_, ARIA_PREFIX_, ROLE_ATTRIBUTE_.
  cbv [String.append]. discriminate.
Qed.

(** [setState] writes the attribute [aria-] + state name and no other:
    the role and the other states keep their values, an array value is
    stored as its elements separated by spaces, and [setRole] in turn
    leaves every state alone. *)
Theorem setState_writes_one_attribute
  (numberToString : float -> string) element stateName value :
  getAttribute (getAriaAttributeName_ stateName)
    (setState numberToString element stateName value)
  = Some (match value with
          | VArray l => join " " l
          | _ => toString numberToString value
          end)
  /\ getRole (setState numberToString element stateName value)
     = getRole element
  /\ (forall other, other <> stateName ->
        getAttribute (getAriaAttributeName_ other)
          (setState numberToString element stateName value)
        = getAttribute (getAriaAttributeName_ other) element)
  /\ (forall roleName,
        getAttribute (getAriaAttributeName_ stateName) (setRole element roleName)
        = getAttribute (getAriaAttributeName_ stateName) element).
Proof.
  unfold setState, setAttribute, getAttribute, getRole, getAttribute,
    Element in *.
  repeat split.
  - rewrite lookup_insert_eq. now destruct value.
  - rewrite lookup_insert_ne by apply prefix_not_role. reflexivity.
  - intros other H.
    rewrite lookup_insert_ne; [reflexivity|].
    intros E. apply prefix_injective in E. congruence.
  - intros roleName. pose proof (prefix_not_role stateName) as H.
    assert (H' : ROLE_ATTRIBUTE_ <> getAriaAttributeName_ stateName)
      by congruence.
    destruct roleName as [name|]; cbn [setRole];
      [destruct (falsy (Some name))|];
      unfold removeRole, removeAttribute, setAttribute, Element in *;
      first [apply lookup_delete_ne; exact H'
            |apply lookup_insert_ne; exact H'].
Qed.

End AriaProofs.

(** ** Blockly.thrasos.RenderInfo: the layout passes *)

Module ThrasosLayoutProofs.
Import TypesOf Constants Thrasos ThrasosMeasures.

(** *** addElemSpacing_ *)

Lemma interleave_lookup {A} (f g : nat -> A) (l : list nat) : forall j,
  flat_map (fun e => [f e; g e]) l !! (2 * j)%nat = f <$> l !! j
  /\ flat_map (fun e => [f e; g e]) l !! (2 * j + 1)%nat = g <$> l !! j.
Proof.
  induction l as [|a l IH]; intros j; [split; reflexivity|].
  destruct j as [|j]; [split; reflexivity|].
  destruct (IH j) as [H1 H2].
  replace (2 * S j)%nat with (S (S (2 * j))) by lia.
  replace (S (S (2 * j)) + 1)%nat with (S (S (2 * j + 1))) by lia.
  split; [exact H1|exact H2].
Qed.

Lemma interleave_length {A} (f g : nat -> A) (l : list nat) :
  length (flat_map (fun e => [f e; g e]) l) = (2 * length l)%nat.
Proof. induction l as [|a l IH]; cbn [flat_map app length]; lia. Qed.

Lemma at_last_index (old : list (option Measurable.t)) :
  old <> [] -> at_last old = at_index old (length old - 1).
Proof. destruct old; [congruence|reflexivity]. Qed.

Section ElemSpacing.
Variable K : Constants.t.
Variable ext : bool.
Variable row : Row.t.

Local Abbreviation old := (Row.elements row).
Local Abbreviation new := (Row.elements (addElemSpacing_row K ext row)).
Local Abbreviation s := (leading row).
Local Abbreviation e := (trailing row).
Local Abbreviation between := (spacerBetween K (Row.elements row)).

Lemma new_shape :
  exists pre post,
    length pre = s /\ length post = e
    /\ new = pre ++ flat_map (fun j => [at_index old j; between j])
                      (seq 0 (length old - 1))
             ++ [at_last old] ++ post.
Proof.
  unfold addElemSpacing_row, leading, trailing, spacerBetween.
  destruct (Row.startsWithElemSpacer row), (Row.endsWithElemSpacer row);
    cbn [Row.set_elements Row.elements].
  - exists [Some (InRowSpacer K
                    (getInRowSpacing_ K None (at_index (Row.elements row) 0)))],
      [Some (InRowSpacer K
               (if ext && Row.hasDummyInput row
                then getInRowSpacing_ K (at_last (Row.elements row)) None
                     + TAB_WIDTH K
                else getInRowSpacing_ K (at_last (Row.elements row)) None))].
    repeat split; try (rewrite <- ?app_assoc; reflexivity).
  - exists [Some (InRowSpacer K
                    (getInRowSpacing_ K None (at_index (Row.elements row) 0)))],
      [].
    repeat split; try (rewrite ?app_nil_r, <- ?app_assoc; reflexivity).
  - exists [],
      [Some (InRowSpacer K
               (if ext && Row.hasDummyInput row
                then getInRowSpacing_ K (at_last (Row.elements row)) None
                     + TAB_WIDTH K
                else getInRowSpacing_ K (at_last (Row.elements row)) None))].
    repeat split; try (rewrite <- ?app_assoc; reflexivity).
  - exists [], [].
    repeat split; try (rewrite ?app_nil_r, <- ?app_assoc; reflexivity).
Qed.

Lemma new_length : length new = (s + 2 * (length old - 1) + 1 + e)%nat.
Proof.
  destruct new_shape as (pre & post & Hs & He & ->).
  rewrite !length_app, interleave_length, length_seq. cbn [length]. lia.
Qed.

Lemma new_old j :
  (j < length old)%nat -> new !! (s + 2 * j)%nat = Some (at_index old j).
Proof.
  intros Hj. destruct new_shape as (pre & post & Hs & He & ->).
  rewrite lookup_app_r by lia.
  replace (s + 2 * j - length pre)%nat with (2 * j)%nat by lia.
  destruct (decide (j = length old - 1)%nat) as [E|Hne].
  - rewrite lookup_app_r
      by (rewrite interleave_length, length_seq; lia).
    rewrite interleave_length, length_seq.
    replace (2 * j - 2 * (length old - 1))%nat with 0%nat by lia.
    cbn [app lookup list_lookup]. rewrite at_last_index, E; [reflexivity|].
    intros Hnil. rewrite Hnil in Hj. cbn in Hj. lia.
  - rewrite lookup_app_l by (rewrite interleave_length, length_seq; lia).
    rewrite (proj1 (interleave_lookup _ _ _ j)).
    rewrite lookup_seq_lt by lia. reflexivity.
Qed.

Lemma new_between j :
  (j + 1 < length old)%nat -> new !! (s + 2 * j + 1)%nat = Some (between j).
Proof.
  intros Hj. destruct new_shape as (pre & post & Hs & He & ->).
  rewrite lookup_app_r by lia.
  replace (s + 2 * j + 1 - length pre)%nat with (2 * j + 1)%nat by lia.
  rewrite lookup_app_l by (rewrite interleave_length, length_seq; lia).
  rewrite (proj2 (interleave_lookup _ _ _ j)).
  rewrite lookup_seq_lt by lia. reflexivity.
Qed.

Lemma new_empty : old = [] -> new !! s = Some None.
Proof.
  intros Hnil. destruct new_shape as (pre & post & Hs & He & ->).
  rewrite Hnil. cbn [length Nat.sub seq flat_map app].
  rewrite lookup_app_r by lia. rewrite Hs, Nat.sub_diag. reflexivity.
Qed.

End ElemSpacing.

(** [addElemSpacing_] keeps the number of rows and, in every row, the
    elements in their order with exactly one in-row spacer between two
    neighbours, of the width [getInRowSpacing_] gives for the pair: after
    an optional leading spacer, old element [j] is at position [2j] and the
    spacer between elements [j] and [j + 1] at position [2j + 1].  A row
    of [n >= 1] elements ends up with [2n - 1] elements plus its boundary
    spacers; a row without elements gets an undefined element. *)
Theorem addElemSpacing_interleaves K rows i row :
  rows !! i = Some row ->
  let old := Row.elements row in
  let s := if Row.startsWithElemSpacer row then 1%nat else 0%nat in
  let e := if Row.endsWithElemSpacer row then 1%nat else 0%nat in
  length (addElemSpacing_ K rows) = length rows
  /\ exists row',
       addElemSpacing_ K rows !! i = Some row'
       /\ length (Row.elements row')
          = (s + 2 * (length old - 1) + 1 + e)%nat
       /\ (forall j, (j < length old)%nat ->
             Row.elements row' !! (s + 2 * j)%nat = Some (at_index old j))
       /\ (forall j, (j + 1 < length old)%nat ->
             Row.elements row' !! (s + 2 * j + 1)%nat
             = Some (Some (InRowSpacer K
                             (getInRowSpacing_ K (at_index old j)
                                (at_index old (j + 1))))))
       /\ (old = [] -> Row.elements row' !! s = Some None).
Proof.
  intros Hi old s e. split; [apply length_map|].
  eexists. split; [apply (ThrasosProofs.addElemSpacing_lookup K rows i row Hi)|].
  split; [apply new_length|]. split; [apply new_old|].
  split; [apply new_between|apply new_empty].
Qed.

(** The input row [label] of the sample block becomes
    [spacer, label, spacer]. *)
Lemma addElemSpacing_interleaves_witness :
  rows Examples.sampleInfo !! 1%nat
  = Some (Examples.sampleRow [Some Examples.labelField] 10 30 false true
            (Some ALIGN_LEFT) true)
  /\ exists row',
       addElemSpacing_ Examples.K0 (rows Examples.sampleInfo) !! 1%nat
       = Some row'
       /\ length (Row.elements row') = 3%nat
       /\ Row.elements row' !! 1%nat = Some (Some Examples.labelField).
Proof.
  split; [reflexivity|].
  destruct (addElemSpacing_interleaves Examples.K0
              (rows Examples.sampleInfo) 1 _ eq_refl)
    as (_ & row' & Hrow & Hlen & Hold & _).
  exists row'. split; [exact Hrow|]. split; [exact Hlen|].
  exact (Hold 0%nat (Nat.lt_0_1)).
Defined.


(** *** finalize_: widths and positions *)

Lemma Math_max_nan_r a b : PrimFloat.is_nan b = true -> Math_max a b = nan.
Proof. intros H. unfold Math_max. now rewrite H, orb_true_r. Qed.

Lemma fold_max_nan (l : list float) : foldl Math_max nan l = nan.
Proof. induction l as [|b l IH]; [reflexivity|exact IH]. Qed.

Lemma fold_max_poisoned (l : list float) x : forall a,
  In x l -> PrimFloat.is_nan x = true -> foldl Math_max a l = nan.
Proof.
  induction l as [|b l IH]; intros a Hin Hx; [destruct Hin|].
  cbn [foldl]. destruct Hin as [->|Hin].
  - rewrite (Math_max_nan_r a x Hx). apply fold_max_nan.
  - now apply IH.
Qed.

Lemma nan_plus x : (nan + x)%float = nan.
Proof.
  rewrite <- (FloatAxioms.SF2Prim_Prim2SF (nan + x)), FloatAxioms.add_spec.
  reflexivity.
Qed.

Section FinalizeWidth.

Variable recordElemPositions_ : Row.t -> list (option Measurable.t).
Variable K : Constants.t.
Variable info : RenderInfo.

Local Abbreviation body := (finalize_body recordElemPositions_ K info).
Local Abbreviation upto := (loop_upto recordElemPositions_ K info).

Lemma body_xPos_eq st i r :
  cur_rows st !! i = Some r ->
  rowField Row.xPos (cur_rows (body st i)) i = startX info.
Proof.
  intros H. unfold finalize_body. rewrite H.
  destruct (_ && _); cbn [cur_rows];
    rewrite ?(ThrasosProofs.rowField_alter_frame Row.xPos
                (fun row => Row.set_elements _ row)) by reflexivity;
    rewrite ?(ThrasosProofs.rowField_alter_frame Row.xPos
                (fun row => Row.set_height _ row)) by reflexivity;
    now erewrite ThrasosProofs.rowField_alter_eq by exact H.
Qed.

Lemma body_xPos_ne st i j :
  i <> j ->
  rowField Row.xPos (cur_rows (body st i)) j
  = rowField Row.xPos (cur_rows st) j.
Proof.
  intros Hne. unfold finalize_body.
  destruct (cur_rows st !! i) eqn:H; [|reflexivity].
  destruct (_ && _); cbn [cur_rows];
    rewrite ?(ThrasosProofs.rowField_alter_frame Row.xPos
                (fun row => Row.set_elements _ row)) by reflexivity;
    rewrite ?(ThrasosProofs.rowField_alter_frame Row.xPos
                (fun row => Row.set_height _ row)) by reflexivity;
    now rewrite ThrasosProofs.rowField_alter_ne.
Qed.

Lemma body_widest st i r :
  cur_rows st !! i = Some r ->
  widestRowWithConnectedBlocks (body st i)
  = Math_max (widestRowWithConnectedBlocks st)
      (Row.widthWithConnectedBlocks r).
Proof.
  intros H. unfold finalize_body. rewrite H.
  rewrite (ThrasosProofs.rowField_alter_frame Row.widthWithConnectedBlocks)
    by reflexivity.
  rewrite (ThrasosProofs.rowField_lookup _ _ _ _ H).
  destruct (_ && _); reflexivity.
Qed.

Lemma WidthInv_upto k :
  (k <= length (rows info))%nat -> WidthInv info k (upto k).
Proof.
  induction k as [|k IH]; intros Hk.
  - split; try reflexivity; intros; lia.
  - specialize (IH ltac:(lia)). destruct IH as [Hl Hx Hf Hw].
    rewrite ThrasosProofs.loop_upto_S.
    destruct (lookup_lt_is_Some_2 (cur_rows (upto k)) k ltac:(lia))
      as [r Hr].
    destruct (lookup_lt_is_Some_2 (rows info) k ltac:(lia)) as [r0 Hr0].
    split.
    + rewrite ThrasosProofs.body_length. exact Hl.
    + intros j Hj. destruct (decide (j = k)) as [->|Hne].
      * exact (body_xPos_eq _ _ _ Hr).
      * rewrite body_xPos_ne by congruence. apply Hx. lia.
    + intros f j H1 H2 H3 H4.
      rewrite (ThrasosProofs.body_frame _ _ _ f _ _ _ H1 H2 H3 H4).
      now apply Hf.
    + rewrite (body_widest _ _ _ Hr), Hw.
      rewrite (take_S_r _ _ _ Hr0). unfold widest.
      rewrite map_app, foldl_app. cbn [map foldl]. f_equal.
      pose proof (Hf Row.widthWithConnectedBlocks k
                    ltac:(reflexivity) ltac:(reflexivity)
                    ltac:(reflexivity) ltac:(reflexivity)) as E.
      now rewrite (ThrasosProofs.rowField_lookup _ _ _ _ Hr),
        (ThrasosProofs.rowField_lookup _ _ _ _ Hr0) in E.
Qed.

End FinalizeWidth.

(** After [finalize_], every row starts at [startX]; the block's
    [widthWithChildren] is the widest [widthWithConnectedBlocks] of its
    rows, taken with [Math.max] from 0 in row order, plus [startX] (on a
    block without rows: [0 + startX]); a row whose
    [widthWithConnectedBlocks] is NaN makes it NaN.  [startY] is the top
    row's capline, and the rows keep their widths and the block its
    [startX]. *)
Theorem finalize_width_and_positions recordElemPositions_ K info :
  let info' := finalize_ recordElemPositions_ K info in
  (forall i r', rows info' !! i = Some r' -> Row.xPos r' = startX info)
  /\ widthWithChildren info' = widest (rows info) + startX info
  /\ (rows info = [] -> widthWithChildren info' = 0 + startX info)
  /\ (forall i r, rows info !! i = Some r ->
        PrimFloat.is_nan (Row.widthWithConnectedBlocks r) = true ->
        widthWithChildren info' = nan)
  /\ startY info' = rowField Row.capline (rows info) (topRow info)
  /\ startX info' = startX info
  /\ (forall i,
        rowField Row.width (rows info') i = rowField Row.width (rows info) i
        /\ rowField Row.widthWithConnectedBlocks (rows info') i
           = rowField Row.widthWithConnectedBlocks (rows info) i).
Proof.
  intros info'.
  destruct (WidthInv_upto recordElemPositions_ K info (length (rows info))
              (Nat.le_refl _)) as [Hl Hx Hf Hw].
  rewrite firstn_all in Hw.
  assert (Hwc : widthWithChildren info'
                = widest (rows info) + startX info).
  { subst info'. unfold finalize_. cbn [widthWithChildren].
    unfold loop_upto, loop_start in Hw. now rewrite Hw. }
  split; [|split; [exact Hwc|split; [|split; [|split; [|split;
    [reflexivity|]]]]]].
  - intros i r' Hr'. subst info'. unfold finalize_ in Hr'.
    cbn [rows] in Hr'.
    rewrite <- (ThrasosProofs.rowField_lookup Row.xPos _ _ _ Hr').
    rewrite (ThrasosProofs.rowField_alter_frame Row.xPos) by reflexivity.
    apply Hx. apply lookup_lt_Some in Hr'.
    rewrite length_alter in Hr'. unfold loop_upto, loop_start in Hl.
    now rewrite Hl in Hr'.
  - intros Hnil. rewrite Hwc, Hnil. reflexivity.
  - intros i r Hr Hnan. rewrite Hwc. unfold widest.
    rewrite (fold_max_poisoned _ (Row.widthWithConnectedBlocks r)).
    + apply nan_plus.
    + apply in_map. apply list_elem_of_In.
      now apply list_elem_of_lookup_2 in Hr.
    + exact Hnan.
  - subst info'. unfold finalize_. cbn [startY].
    rewrite (ThrasosProofs.rowField_alter_frame Row.capline) by reflexivity.
    now apply Hf.
  - intros i. subst info'. unfold finalize_. cbn [rows].
    rewrite !ThrasosProofs.rowField_alter_frame by reflexivity.
    split; now apply Hf.
Qed.

End ThrasosLayoutProofs.
